(** * strava-routes-overview: a shallow embedding of [server.js]

    The development follows the source file top to bottom:

    - [JS]: the fragment of JavaScript values the server manipulates
      (JSON data and [undefined]), truthiness, property reads and the
      exceptions they raise;
    - [Server]: the Express handlers and their helpers ([isAuthed],
      [tokenExchange], [refreshIfNeeded], [stravaFetch], the [/auth],
      [/oauth/callback] and [/api/activities] routes) as functions of an
      explicit request state, with the clock, the random source and the
      remote endpoints as oracles of the history of events;
    - [Polyline]: the browser-side [decodePolyline], with the 32-bit integer
      semantics of the JavaScript bit operators written out;
    - [Heatmap]: the density grid built in [renderRoutes] by [pushPoint].

    The properties follow, one module per component of the specification:
    [TokenLifecycle], [OAuthState], [ActivityNormalizer], [ActivityFetcher],
    [PolylineDecoder] and [RouteAggregator].  Further modules cover the
    code around them: [SessionRoutes], [RefreshEdges] and [FetchBounds] for
    the routes of the server, [ClientFilter], [DecoderEdges], [GridEdges]
    and [LineBranch] for [renderRoutes] in the page.

    JavaScript numbers are IEEE doubles.  The embedding keeps integers exact
    (as [Z]) and reads every other number as an exact rational ([Q]); the
    rounding of double arithmetic is not modelled. *)

From Stdlib Require Import ZArith QArith Qround Qabs List String Ascii Bool Lia.
From Stdlib Require Import DecimalString.
From Stdlib Require Import Permutation Lqa.
Import ListNotations.

(* ================================================================== *)
(** * JavaScript values *)
(* ================================================================== *)

Module JS.

Local Open Scope string_scope.

(** JSON data, [undefined], and the built-in methods reachable through a
    prototype ([VFunction]: for instance [a.map] when [a] is an array). *)
#[warnings="-register-all"]
Inductive value : Type :=
| VUndefined
| VNull
| VBool (b : bool)
| VNum (q : Q)
| VStr (s : string)
| VArr (items : list value)
| VObj (fields : list (string * value))
| VFunction (name : string).

(** An [Error] object: its [name] and its [message]. *)
Record exn : Type := mkExn { e_name : string; e_message : string }.

Definition Error (msg : string) : exn := mkExn "Error" msg.
Definition TypeError (msg : string) : exn := mkExn "TypeError" msg.
Definition SyntaxError (msg : string) : exn := mkExn "SyntaxError" msg.

(** The result of evaluating an expression that may throw. *)
Inductive outcome (A : Type) : Type :=
| Return (a : A)
| Throw (e : exn).

Arguments Return {A} a.
Arguments Throw {A} e.

Definition obind {A B} (c : outcome A) (k : A -> outcome B) : outcome B :=
  match c with
  | Return a => k a
  | Throw e => Throw e
  end.

(** [Boolean(v)], the test of [if], [!], [&&] and [||]. *)
Definition truthy (v : value) : bool :=
  match v with
  | VUndefined | VNull => false
  | VBool b => b
  | VNum q => negb (Qeq_bool q 0)
  | VStr s => negb (String.eqb s "")
  | VArr _ | VObj _ | VFunction _ => true
  end.

(** [a || b] on values. *)
Definition js_or (a b : value) : value := if truthy a then a else b.

Fixpoint assoc (k : string) (fields : list (string * value)) : value :=
  match fields with
  | [] => VUndefined
  | (k', v) :: rest => if String.eqb k k' then v else assoc k rest
  end.

(** [v.k] for a [v] that is neither [null] nor [undefined].  Besides own
    properties, the table has the inherited ones among the names the server
    reads ([map], [length], [summary_polyline], [id], [name], [sport_type],
    [type], [start_date], [distance], [access_token], [refresh_token],
    [expires_at], [athlete]): [length] of strings and arrays, and the method
    [Array.prototype.map]. *)
Definition prop (v : value) (k : string) : value :=
  match v with
  | VObj fields => assoc k fields
  | VArr items =>
      if String.eqb k "length" then VNum (inject_Z (Z.of_nat (List.length items)))
      else if String.eqb k "map" then VFunction "map"
      else VUndefined
  | VStr s =>
      if String.eqb k "length" then VNum (inject_Z (Z.of_nat (String.length s)))
      else VUndefined
  | _ => VUndefined
  end.

Definition nullish (v : value) : bool :=
  match v with
  | VUndefined | VNull => true
  | _ => false
  end.

(** [v.k] in general: reading a property of [null] or [undefined] throws. *)
Definition get (v : value) (k : string) : outcome value :=
  if nullish v
  then Throw (TypeError ("Cannot read properties of null or undefined: " ++ k))
  else Return (prop v k).

(** [String(n)] for an integer [n]. *)
Definition string_of_Z (z : Z) : string := NilZero.string_of_int (Z.to_int z).

(** [String(e.message || e)]: the message, or for an empty message the text
    of the error object, which is then its name. *)
Definition error_text (e : exn) : string :=
  if negb (String.eqb (e_message e) "") then e_message e else e_name e.

Section ToNumber.

(** The text-to-number conversion of the runtime, applied to strings and, after
    joining, to arrays; [None] stands for [NaN]. *)
Variable TextToNumber : value -> option Q.

Definition to_number (v : value) : option Q :=
  match v with
  | VUndefined => None
  | VNull => Some 0%Q
  | VBool b => Some (if b then 1%Q else 0%Q)
  | VNum q => Some q
  | VStr _ | VArr _ => TextToNumber v
  | VObj _ | VFunction _ => None
  end.

(** [a <= b] and [a < b] between numbers, false as soon as one side is
    [NaN]. *)
Definition num_le (a b : option Q) : bool :=
  match a, b with
  | Some x, Some y => Qle_bool x y
  | _, _ => false
  end.

Definition num_lt (a b : option Q) : bool :=
  match a, b with
  | Some x, Some y => negb (Qle_bool y x)
  | _, _ => false
  end.

Definition num_sub (a b : option Q) : option Q :=
  match a, b with
  | Some x, Some y => Some (x - y)%Q
  | _, _ => None
  end.

End ToNumber.

End JS.

Import JS.

Declare Scope js_scope.
Delimit Scope js_scope with js.

Notation "'let!' x ':=' c 'in' k" := (obind c (fun x => k))
  (at level 10, x name, c at level 100, k at level 200) : js_scope.

(* ================================================================== *)
(** * The server *)
(* ================================================================== *)

Module Server.

Local Open Scope string_scope.
Local Open Scope Z_scope.
Local Open Scope js_scope.

(** ** Requests to the provider and what comes back *)

(** A query parameter handed to [stravaFetch]: a number of the program, the
    number [Number(raw)] of a raw query value, or [undefined]. *)
Inductive param : Type :=
| PUndefined
| PNum (z : Z)
| PNumberOf (raw : value).

(** The two kinds of outbound call: a form POST to [STRAVA_TOKEN_URL] and a
    GET below [STRAVA_API_BASE] with its search parameters and the value
    interpolated after [Bearer] in the [Authorization] header. *)
Inductive request : Type :=
| TokenRequest (form : list (string * value))
| ApiRequest (path : string) (search : list (string * param)) (bearer : value).

(** A [Response]: [res.status], [res.text()] and [res.json()] ([None] when
    the body is not JSON, in which case [res.json()] rejects). *)
Record response : Type := mkResponse {
  status : Z;
  text : string;
  json : option value
}.

(** [res.ok] *)
Definition ok (r : response) : bool := (200 <=? status r) && (status r <=? 299).

(** [fetch] resolves to a response or rejects (network failure). *)
Inductive fetch_result : Type :=
| NetworkError (msg : string)
| Resolved (r : response).

(** ** The session and the observable events of a request *)

Record TokenRecord : Type := mkToken {
  access_token : value;
  refresh_token : value;
  expires_at : value;
  athlete : value
}.

(** [req.session]: the two fields the server uses. *)
Record Session : Type := mkSession {
  oauth_state : option string;
  strava : option TokenRecord
}.

Inductive event : Type :=
| EvNow (ms : Z)                                (* Date.now() *)
| EvRandom (hex : string)                       (* crypto.randomBytes(8).toString("hex") *)
| EvFetch (req : request) (res : fetch_result)  (* fetch(...) *)
| EvLog (label detail : string)                 (* console.error(label, detail) *)
| EvLogError (e : exn).                         (* console.error(e) *)

(** What a handler sends back. *)
Inductive location : Type :=
| Root
| Authorize (search : list (string * value)).

Inductive http_response : Type :=
| Redirect (to : location)
| SendText (code : Z) (body : string)
| SendJson (code : Z) (body : value).

(** The environment of the process: its configuration and, as functions of
    the events so far, the clock, the random source and the provider. *)
Record Env : Type := mkEnv {
  TextToNumber : value -> option Q;
  STRAVA_CLIENT_ID : value;
  STRAVA_CLIENT_SECRET : value;
  BASE_URL : string;
  clock_ms : list event -> Z;
  random_hex : list event -> string;
  remote : list event -> request -> fetch_result
}.

(** The state threaded through a handler: [req.session] ([None] once it has
    been set to [null]) and the events so far, oldest first. *)
Record state : Type := mkState {
  session : option Session;
  history : list event
}.

Definition M (A : Type) : Type := state -> outcome A * state.

Definition ret {A} (a : A) : M A := fun s => (Return a, s).

Definition throw {A} (e : exn) : M A := fun s => (Throw e, s).

Definition bind {A B} (c : M A) (k : A -> M B) : M B :=
  fun s =>
    match c s with
    | (Return a, s') => k a s'
    | (Throw e, s') => (Throw e, s')
    end.

Definition lift {A} (o : outcome A) : M A := fun s => (o, s).

(** [try { c } catch (e) { h e }] *)
Definition try_catch {A} (c : M A) (h : exn -> M A) : M A :=
  fun s =>
    match c s with
    | (Return a, s') => (Return a, s')
    | (Throw e, s') => h e s'
    end.

Definition emit (ev : event) : M unit :=
  fun s => (Return tt, mkState (session s) (history s ++ [ev])).

Definition get_session : M (option Session) := fun s => (Return (session s), s).

Definition put_session (x : option Session) : M unit :=
  fun s => (Return tt, mkState x (history s)).

Notation "x <- c ;; k" := (bind c (fun x => k))
  (at level 61, c at next level, right associativity) : js_scope.
Notation "c ;;; k" := (bind c (fun _ => k))
  (at level 61, right associativity) : js_scope.

Definition per_page : Z := 200.
Definition page_cap : Z := 20.
Definition refresh_window : Q := 300%Q.

Section Handlers.

Variable E : Env.

(** ** Primitive effects *)

(** [Math.floor(Date.now() / 1000)] *)
Definition now_seconds : M Z :=
  fun s =>
    let ms := clock_ms E (history s) in
    (Return (ms / 1000), mkState (session s) (history s ++ [EvNow ms])).

(** [crypto.randomBytes(8).toString("hex")] *)
Definition random_state : M string :=
  fun s =>
    let hex := random_hex E (history s) in
    (Return hex, mkState (session s) (history s ++ [EvRandom hex])).

(** [await fetch(...)] *)
Definition fetch (req : request) : M response :=
  fun s =>
    let res := remote E (history s) req in
    let s' := mkState (session s) (history s ++ [EvFetch req res]) in
    match res with
    | NetworkError msg => (Throw (TypeError msg), s')
    | Resolved r => (Return r, s')
    end.

(** [await res.json()] *)
Definition res_json (r : response) : M value :=
  match json r with
  | Some v => ret v
  | None => throw (SyntaxError "Unexpected token in JSON")
  end.

(** ** Helpers *)

(** [isAuthed(req)] *)
Definition isAuthed (s : state) : bool :=
  match session s with
  | None => false
  | Some sess =>
      match strava sess with
      | None => false
      | Some data => truthy (access_token data)
      end
  end.

(** [tokenExchange(code)].  The form carries the values that
    [URLSearchParams] turns into text. *)
Definition tokenExchange (code : value) : M value :=
  res <- fetch (TokenRequest [("client_id", STRAVA_CLIENT_ID E);
                              ("client_secret", STRAVA_CLIENT_SECRET E);
                              ("code", code);
                              ("grant_type", VStr "authorization_code")]) ;;
  if negb (ok res)
  then throw (Error ("Token exchange failed: " ++ string_of_Z (status res)))
  else res_json res.

(** The test [data.expires_at && data.expires_at - now <= 300]. *)
Definition refresh_due (data : TokenRecord) (now : Z) : bool :=
  truthy (expires_at data) &&
  num_le (num_sub (to_number (TextToNumber E) (expires_at data)) (Some (inject_Z now)))
         (Some refresh_window).

(** The request of the [refresh_token] grant. *)
Definition refresh_request (data : TokenRecord) : request :=
  TokenRequest [("client_id", STRAVA_CLIENT_ID E);
                ("client_secret", STRAVA_CLIENT_SECRET E);
                ("grant_type", VStr "refresh_token");
                ("refresh_token", refresh_token data)].

(** The object literal assigned to [req.session.strava] after a refresh; its
    four property reads come before the assignment. *)
Definition refreshed_record (json : value) (data : TokenRecord) : outcome TokenRecord :=
  let! a := get json "access_token" in
  let! r := get json "refresh_token" in
  let! e := get json "expires_at" in
  let! p := get json "athlete" in
  Return (mkToken a r e (js_or p (athlete data))).

(** [req.session.strava = record] *)
Definition set_strava (record : TokenRecord) : M unit :=
  fun s =>
    match session s with
    | None => (Throw (TypeError "Cannot set properties of null"), s)
    | Some sess =>
        (Return tt,
         mkState (Some (mkSession (oauth_state sess) (Some record))) (history s))
    end.

(** [refreshIfNeeded(req)] *)
Definition refreshIfNeeded : M unit :=
  sess <- get_session ;;
  match sess with
  | None => ret tt
  | Some sess =>
      match strava sess with
      | None => ret tt
      | Some data =>
          now <- now_seconds ;;
          if refresh_due data now then
            res <- fetch (refresh_request data) ;;
            if ok res then
              json <- res_json res ;;
              record <- lift (refreshed_record json data) ;;
              set_strava record
            else
              emit (EvLog "Token refresh failed" (text res))
          else ret tt
      end
  end.

(** The entries of [params] that [stravaFetch] copies into the URL. *)
Definition search_of (params : list (string * param)) : list (string * param) :=
  filter (fun kv => match snd kv with PUndefined => false | _ => true end) params.

(** [req.session.strava.access_token] *)
Definition read_access_token : M value :=
  sess <- get_session ;;
  match sess with
  | None => throw (TypeError "Cannot read properties of null (reading 'strava')")
  | Some sess =>
      match strava sess with
      | None => throw (TypeError "Cannot read properties of undefined (reading 'access_token')")
      | Some data => ret (access_token data)
      end
  end.

(** [stravaFetch(req, path, params)] *)
Definition stravaFetch (path : string) (params : list (string * param)) : M value :=
  refreshIfNeeded ;;;
  bearer <- read_access_token ;;
  res <- fetch (ApiRequest path (search_of params) bearer) ;;
  if negb (ok res)
  then throw (Error ("Strava API error " ++ string_of_Z (status res) ++ ": " ++ text res))
  else res_json res.

(** ** OAuth routes *)

(** [GET /auth] *)
Definition auth : M http_response :=
  state <- random_state ;;
  sess <- get_session ;;
  match sess with
  | None => throw (TypeError "Cannot set properties of null (setting 'oauth_state')")
  | Some sess =>
      put_session (Some (mkSession (Some state) (strava sess))) ;;;
      ret (Redirect (Authorize [("client_id", STRAVA_CLIENT_ID E);
                                ("redirect_uri", VStr (BASE_URL E ++ "/oauth/callback"));
                                ("response_type", VStr "code");
                                ("scope", VStr "activity:read,activity:read_all");
                                ("approval_prompt", VStr "auto");
                                ("state", VStr state)]))
  end.

(** [state !== req.session.oauth_state], for a query value against the stored
    field: a string or [undefined] on the session side, and on the query
    side also the arrays and objects the query parser builds, which are
    never identical to a string. *)
Definition state_differs (state : value) (stored : option string) : bool :=
  match state, stored with
  | VUndefined, None => false
  | VStr a, Some b => negb (String.eqb a b)
  | _, _ => true
  end.

(** [req.session.oauth_state] *)
Definition read_oauth_state : M (option string) :=
  sess <- get_session ;;
  match sess with
  | None => throw (TypeError "Cannot read properties of null (reading 'oauth_state')")
  | Some sess => ret (oauth_state sess)
  end.

(** The object literal assigned to [req.session.strava] in the callback. *)
Definition exchanged_record (token : value) : outcome TokenRecord :=
  let! a := get token "access_token" in
  let! r := get token "refresh_token" in
  let! e := get token "expires_at" in
  let! p := get token "athlete" in
  Return (mkToken a r e p).

(** [GET /oauth/callback], for the query values [code] and [state]. *)
Definition oauth_callback (code state : value) : M http_response :=
  try_catch
    (if negb (truthy code) then ret (SendText 400 "Missing code")
     else
       stored <- read_oauth_state ;;
       if state_differs state stored then ret (SendText 400 "Invalid state")
       else
         token <- tokenExchange code ;;
         record <- lift (exchanged_record token) ;;
         set_strava record ;;;
         ret (Redirect Root))
    (fun e =>
       emit (EvLogError e) ;;;
       ret (SendText 500 "OAuth Fehler. Details in Server-Logs.")).

(** [POST /logout] *)
Definition logout : M http_response :=
  put_session None ;;;
  ret (Redirect Root).

(** ** The activities route *)

(** What [concat] appends for an argument: the elements of an array, and
    any other value as one element. *)
Definition items_of (batch : value) : list value :=
  match batch with
  | VArr items => items
  | v => [v]
  end.

(** [all.concat(batch)] *)
Definition concat_batch (all : list value) (batch : value) : list value :=
  all ++ items_of batch.

(** The exit test [!batch.length || batch.length < per_page]. *)
Definition last_page (len : value) : bool :=
  negb (truthy len) ||
  num_lt (to_number (TextToNumber E) len) (Some (inject_Z per_page)).

(** The parameter object of one page request. *)
Definition page_params (after before : param) (page : Z) : list (string * param) :=
  [("after", after); ("before", before); ("per_page", PNum per_page); ("page", PNum page)].

(** The [while (true)] loop.  Each turn is one unit of [fuel]; [None] is
    returned when the fuel runs out before the loop breaks. *)
Fixpoint fetch_pages (fuel : nat) (after before : param) (page : Z) (all : list value)
  : M (option (list value)) :=
  match fuel with
  | O => ret None
  | S fuel' =>
      batch <- stravaFetch "/athlete/activities" (page_params after before page) ;;
      let all := concat_batch all batch in
      len <- lift (get batch "length") ;;
      if last_page len then ret (Some all)
      else
        let page := page + 1 in
        if page >? page_cap then ret (Some all)
        else fetch_pages fuel' after before page all
  end.

(** The filter callback [a && a.map && a.map.summary_polyline]. *)
Definition has_polyline (a : value) : outcome bool :=
  if truthy a then
    let! m := get a "map" in
    if truthy m then
      let! p := get m "summary_polyline" in
      Return (truthy p)
    else Return false
  else Return false.

(** The map callback. *)
Definition route_record (a : value) : outcome value :=
  let! id := get a "id" in
  let! name := get a "name" in
  let! sport := get a "sport_type" in
  let! sport_type := (if truthy sport then Return sport else get a "type") in
  let! start_date := get a "start_date" in
  let! distance := get a "distance" in
  let! m := get a "map" in
  let! polyline := get m "summary_polyline" in
  Return (VObj [("id", id); ("name", name);
                ("sport_type", sport_type);
                ("start_date", start_date); ("distance", distance);
                ("polyline", polyline)]).

(** [Array.prototype.filter] and [Array.prototype.map] with callbacks that
    may throw: the first exception ends the traversal. *)
Fixpoint filter_cb (f : value -> outcome bool) (l : list value) : outcome (list value) :=
  match l with
  | [] => Return []
  | a :: rest =>
      let! keep := f a in
      let! rest' := filter_cb f rest in
      Return (if keep then a :: rest' else rest')
  end.

Fixpoint map_cb (f : value -> outcome value) (l : list value) : outcome (list value) :=
  match l with
  | [] => Return []
  | a :: rest =>
      let! b := f a in
      let! rest' := map_cb f rest in
      Return (b :: rest')
  end.

(** [all.filter(...).map(...)] *)
Definition cleaned (all : list value) : outcome (list value) :=
  let! kept := filter_cb has_polyline all in
  map_cb route_record kept.

(** [req.query.x ? Number(req.query.x) : undefined] *)
Definition bound_of (raw : value) : param :=
  if truthy raw then PNumberOf raw else PUndefined.

(** The body of the [try] block of [GET /api/activities], with the fuel of
    its loop. *)
Definition activities_body (fuel : nat) (after before : value) : M (option http_response) :=
  fun s =>
    if negb (isAuthed s)
    then (Return (Some (SendJson 401 (VObj [("error", VStr "not_authenticated")]))), s)
    else
      (all <- fetch_pages fuel (bound_of after) (bound_of before) 1 [] ;;
       match all with
       | None => ret None
       | Some all =>
           routes <- lift (cleaned all) ;;
           ret (Some (SendJson 200 (VObj [("activities", VArr routes)])))
       end) s.

(** [GET /api/activities], for the query values [after] and [before]. *)
Definition api_activities_fuel (fuel : nat) (after before : value) : M (option http_response) :=
  try_catch
    (activities_body fuel after before)
    (fun e =>
       emit (EvLogError e) ;;;
       ret (Some (SendJson 500 (VObj [("error", VStr "server_error");
                                      ("message", VStr (error_text e))])))).

(** The loop breaks at the latest when [page] exceeds the cap, so twenty
    turns are enough: see [ActivityFetcher.api_activities_fuel_enough]. *)
Definition api_activities (after before : value) : M (option http_response) :=
  api_activities_fuel (Z.to_nat page_cap) after before.

End Handlers.

(** ** Observations on the events of a request *)

(** The events added between two states of one request. *)
Definition events_since (s s' : state) : list event :=
  skipn (List.length (history s)) (history s').

Definition is_token_fetch (ev : event) : bool :=
  match ev with
  | EvFetch (TokenRequest _) _ => true
  | _ => false
  end.

Definition is_clock_read (ev : event) : bool :=
  match ev with
  | EvNow _ => true
  | _ => false
  end.

(** The number of calls to the token endpoint among the events. *)
Definition token_calls (evs : list event) : nat :=
  List.length (filter is_token_fetch evs).

(** The requests sent to the activities API, in order. *)
Fixpoint api_requests (evs : list event) : list (string * list (string * param) * value) :=
  match evs with
  | [] => []
  | EvFetch (ApiRequest path search bearer) _ :: rest =>
      (path, search, bearer) :: api_requests rest
  | _ :: rest => api_requests rest
  end.

Fixpoint param_of (k : string) (search : list (string * param)) : param :=
  match search with
  | [] => PUndefined
  | (k', v) :: rest => if String.eqb k k' then v else param_of k rest
  end.

(** The items of the successful answers of the activities API, in the
    order of the requests. *)
Fixpoint fetched_items (evs : list event) : list value :=
  match evs with
  | [] => []
  | EvFetch (ApiRequest _ _ _) (Resolved r) :: rest =>
      match ok r, json r with
      | true, Some batch => items_of batch ++ fetched_items rest
      | _, _ => fetched_items rest
      end
  | _ :: rest => fetched_items rest
  end.

(** The answers of the activities API that were not a success. *)
Fixpoint failed_pages (evs : list event) : list response :=
  match evs with
  | [] => []
  | EvFetch (ApiRequest _ _ _) (Resolved r) :: rest =>
      if ok r then failed_pages rest else r :: failed_pages rest
  | _ :: rest => failed_pages rest
  end.

(** The [page] parameter of a request. *)
Definition page_number (search : list (string * param)) : Z :=
  match param_of "page" search with
  | PNum p => p
  | _ => 0
  end.

(** The page numbers of the requests to the activities API, in order. *)
Definition api_pages (evs : list event) : list Z :=
  map (fun q => page_number (snd (fst q))) (api_requests evs).

(** The readings of the clock. *)
Definition clock_reads (evs : list event) : nat :=
  List.length (filter is_clock_read evs).

(** Whether every request to the activities API comes after a reading of
    the clock that no earlier such request has used; [checked] tells whether
    such a reading is pending.  The clock is read by [refreshIfNeeded]
    only. *)
Fixpoint guarded (checked : bool) (evs : list event) : bool :=
  match evs with
  | [] => true
  | EvNow _ :: rest => guarded true rest
  | EvFetch (ApiRequest _ _ _) _ :: rest => checked && guarded false rest
  | _ :: rest => guarded checked rest
  end.

(** The pages [first], [first + 1], ... ([count] of them). *)
Fixpoint pages_from (first : Z) (count : nat) : list Z :=
  match count with
  | O => []
  | S n => first :: pages_from (first + 1) n
  end.

(** ** Vocabulary of the statements about the handlers *)

(** The state in which [refreshIfNeeded] decides, after reading the clock. *)
Definition after_clock (E : Env) (s : state) : state :=
  mkState (session s) (history s ++ [EvNow (clock_ms E (history s))]).

Definition now_of (E : Env) (s : state) : Z := clock_ms E (history s) / 1000.

(** The events of [refreshIfNeeded] after the reading of the clock. *)
Definition refresh_tail (E : Env) (s : state) (data : TokenRecord) : list event :=
  if refresh_due E data (now_of E s) then
    let res := remote E (history (after_clock E s)) (refresh_request E data) in
    EvFetch (refresh_request E data) res ::
    match res with
    | Resolved r => if ok r then [] else [EvLog "Token refresh failed" (text r)]
    | NetworkError _ => []
    end
  else [].

(** What [stravaFetch] makes of the answer of the activities API. *)
Definition api_outcome (res : fetch_result) : outcome value :=
  match res with
  | NetworkError msg => Throw (TypeError msg)
  | Resolved r =>
      if negb (ok r)
      then Throw (Error ("Strava API error " ++ string_of_Z (status r) ++ ": " ++ text r))
      else match json r with
           | Some v => Return v
           | None => Throw (SyntaxError "Unexpected token in JSON")
           end
  end.

(** The message of the error thrown for an answer that is not a success. *)
Definition api_error_text (r : response) : string :=
  "Strava API error " ++ string_of_Z (status r) ++ ": " ++ text r.

(** The request of the [authorization_code] grant. *)
Definition exchange_request (E : Env) (code : value) : request :=
  TokenRequest [("client_id", STRAVA_CLIENT_ID E);
                ("client_secret", STRAVA_CLIENT_SECRET E);
                ("code", code);
                ("grant_type", VStr "authorization_code")].

(** What the callback makes of the answer of the token endpoint. *)
Definition exchange_outcome (res : fetch_result) : outcome TokenRecord :=
  match res with
  | NetworkError msg => Throw (TypeError msg)
  | Resolved r =>
      if negb (ok r)
      then Throw (Error ("Token exchange failed: " ++ string_of_Z (status r)))
      else match json r with
           | Some token => exchanged_record token
           | None => Throw (SyntaxError "Unexpected token in JSON")
           end
  end.

(** The encoded path of a raw activity, [undefined] when there is none. *)
Definition encoded_path (a : value) : value := prop (prop a "map") "summary_polyline".

(** The record made of a kept activity. *)
Definition route_of (a : value) : value :=
  VObj [("id", prop a "id");
        ("name", prop a "name");
        ("sport_type", js_or (prop a "sport_type") (prop a "type"));
        ("start_date", prop a "start_date");
        ("distance", prop a "distance");
        ("polyline", encoded_path a)].

(** A raw activity as the provider documents it: its encoded path, when
    there is one, is a string. *)
Definition path_is_text (a : value) : Prop :=
  match encoded_path a with
  | VUndefined | VNull | VStr _ => True
  | _ => False
  end.

(** The activity carries a non-empty encoded-path string. *)
Definition has_path (a : value) : bool :=
  match encoded_path a with
  | VStr p => negb (String.eqb p "")
  | _ => false
  end.

(** The lists [x1; y1; x2; y2; ...]. *)
Fixpoint interleave (xs ys : list value) : list value :=
  match xs, ys with
  | x :: xs', y :: ys' => x :: y :: interleave xs' ys'
  | _, _ => xs ++ ys
  end.

Definition is_refresh_event (ev : event) : bool :=
  match ev with
  | EvFetch (TokenRequest _) _ | EvLog _ _ => true
  | _ => false
  end.

(** The events of one page request: clock, freshness check, request. *)
Definition page_block (ms : Z) (q : list event) (path : string)
           (search : list (string * param)) (bearer : value) (res : fetch_result)
  : list event :=
  EvNow ms :: q ++ [EvFetch (ApiRequest path search bearer) res].

(** The token endpoint always answers, and its successful answers are JSON
    values other than [null]. *)
Definition tokens_well_formed (E : Env) : Prop :=
  forall (h : list event) (form : list (string * value)),
  exists r : response,
    remote E h (TokenRequest form) = Resolved r
    /\ (ok r = true -> exists j, json r = Some j /\ nullish j = false).

(** The activities endpoint answers every request with an array: of exactly
    [per_page] items for the pages before [N], of fewer for page [N]. *)
Definition serves_pages (E : Env) (N : Z) : Prop :=
  forall (h : list event) (path : string) (search : list (string * param)) (bearer : value),
  exists (r : response) (items : list value),
    remote E h (ApiRequest path search bearer) = Resolved r
    /\ ok r = true
    /\ json r = Some (VArr items)
    /\ (page_number search < N -> Z.of_nat (List.length items) = per_page)
    /\ (page_number search = N -> Z.of_nat (List.length items) < per_page).

(** The requests of the loop: the activities path with [per_page = 200]. *)
Definition page_request (rq : string * list (string * param) * value) : Prop :=
  fst (fst rq) = "/athlete/activities"
  /\ param_of "per_page" (snd (fst rq)) = PNum 200.

(** The answers of the handler. *)
Definition not_authenticated : http_response :=
  SendJson 401 (VObj [("error", VStr "not_authenticated")]).

Definition server_error (message : string) : http_response :=
  SendJson 500 (VObj [("error", VStr "server_error"); ("message", VStr message)]).

Definition activities_found (routes : list value) : http_response :=
  SendJson 200 (VObj [("activities", VArr routes)]).

(** ** Concrete environments, for running the handlers *)

(** A provider whose token endpoint always answers [token_reply] and whose
    activities endpoint answers [page_reply p] for page [p]; the clock
    stands still at [ms]. *)
Definition scripted (ms : Z) (token_reply : fetch_result) (page_reply : Z -> fetch_result)
  : Env :=
  mkEnv (fun _ => None) (VStr "12345") (VStr "secret") "http://localhost:3000"
        (fun _ => ms) (fun _ => "9f86d081884c7d65")
        (fun _ req =>
           match req with
           | TokenRequest _ => token_reply
           | ApiRequest _ search _ => page_reply (page_number search)
           end).

Definition json_reply (v : value) : fetch_result :=
  Resolved (mkResponse 200 "" (Some v)).

Definition error_reply (code : Z) (body : string) : fetch_result :=
  Resolved (mkResponse code body None).

(** A session holding a token that expires at [expiry]. *)
Definition token_of (access : string) (expiry : value) : TokenRecord :=
  mkToken (VStr access) (VStr "refresh-0") expiry (VObj [("firstname", VStr "Ada")]).

Definition logged_in (stored : option string) (data : TokenRecord) : state :=
  mkState (Some (mkSession stored (Some data))) [].

Definition fresh_token_json : value :=
  VObj [("access_token", VStr "access-1");
        ("refresh_token", VStr "refresh-1");
        ("expires_at", VNum 2000021600)].

(** The activity of index [i], with a polyline. *)
Definition activity (i : nat) : value :=
  VObj [("id", VNum (inject_Z (Z.of_nat i)));
        ("name", VStr "Ride");
        ("sport_type", VStr "Ride");
        ("type", VStr "Ride");
        ("start_date", VStr "2024-05-01T07:00:00Z");
        ("distance", VNum 1234.5);
        ("map", VObj [("summary_polyline", VStr "_p~iF~ps|U")])].

Definition full_page : value := VArr (map activity (seq 0 200)).
Definition short_page : value := VArr (map activity (seq 0 3)).

(** The clock of the examples: 2033-05-18T03:33:20Z. *)
Definition example_ms : Z := 2000000000000.

(** The provider refreshes tokens and serves one short page. *)
Definition provider_up : Env :=
  scripted example_ms (json_reply fresh_token_json) (fun _ => json_reply short_page).

(** The token endpoint rejects every call. *)
Definition provider_rejecting : Env :=
  scripted example_ms (error_reply 401 "Authorization Error")
           (fun _ => json_reply short_page).

(** A token that expires in 100 seconds, one without expiry, and one whose
    expiry is 0. *)
Definition expiring_soon : state :=
  logged_in (Some "9f86d081884c7d65") (token_of "access-0" (VNum 2000000100)).

Definition without_expiry : state :=
  logged_in None (token_of "access-0" VUndefined).

Definition expiry_zero : state :=
  logged_in None (token_of "access-0" (VNum 0)).

(** The activities endpoint serves a full first page and fails afterwards. *)
Definition provider_flaky : Env :=
  scripted example_ms (json_reply fresh_token_json)
           (fun p => if p =? 1 then json_reply full_page else error_reply 500 "boom").

(** The activities endpoint has two full pages and a short third one. *)
Definition provider_three_pages : Env :=
  scripted example_ms (json_reply fresh_token_json)
           (fun p => if p <? 3 then json_reply full_page else json_reply short_page).

(** A token good for six more hours. *)
Definition signed_in : state :=
  logged_in None (token_of "access-0" (VNum 2000021600)).

(** A session waiting for the callback of state [9f86d081884c7d65]. *)
Definition awaiting_callback : state :=
  mkState (Some (mkSession (Some "9f86d081884c7d65") None)) [].

(** ** The claims of the specification that the code does not meet, as
    stated *)

(** "EnsureFresh performs a refresh call if and only if
    [expires_at - now <= 300]", for a record whose expiry is a number. *)
Definition refresh_iff_within_window : Prop :=
  forall (E : Env) (s : state) (sess : Session) (data : TokenRecord) (q : Q),
    session s = Some sess ->
    strava sess = Some data ->
    expires_at data = VNum q ->
    (token_calls (events_since s (snd (refreshIfNeeded E s))) = 1%nat <->
     (q - inject_Z (clock_ms E (history s) / 1000) <= 300)%Q).

(** "After one accepted callback the same state value is not accepted a
    second time without a new /auth redirect": a second callback with that
    state, whatever its code, does not end in the redirect of an accepted
    one. *)
Definition state_is_single_use : Prop :=
  forall (E : Env) (s s1 s2 : state) (code code' st : value)
         (second : outcome http_response),
    oauth_callback E code st s = (Return (Redirect Root), s1) ->
    oauth_callback E code' st s1 = (second, s2) ->
    second <> Return (Redirect Root).

(** ** The routes around the session: vocabulary and examples *)

(** The location [/auth] redirects to, for the state it has drawn. *)
Definition authorize_location (E : Env) (st : string) : location :=
  Authorize [("client_id", STRAVA_CLIENT_ID E);
             ("redirect_uri", VStr (BASE_URL E ++ "/oauth/callback"));
             ("response_type", VStr "code");
             ("scope", VStr "activity:read,activity:read_all");
             ("approval_prompt", VStr "auto");
             ("state", VStr st)].

(** The session of a request that comes without a cookie. *)
Definition empty_session : Session := mkSession None None.

(** The text sent when the callback fails. *)
Definition oauth_failure : http_response :=
  SendText 500 "OAuth Fehler. Details in Server-Logs.".

(** The record the callback builds from the token JSON. *)
Definition record_of_token (token : value) : TokenRecord :=
  mkToken (prop token "access_token") (prop token "refresh_token")
          (prop token "expires_at") (prop token "athlete").

(** The token endpoint cannot be reached. *)
Definition provider_unreachable : Env :=
  scripted example_ms (NetworkError "fetch failed") (fun _ => json_reply short_page).

(** The token endpoint answers with success and an empty object. *)
Definition provider_empty_refresh : Env :=
  scripted example_ms (json_reply (VObj [])) (fun _ => json_reply short_page).

(** A random source that gives a new value after each draw. *)
Definition provider_two_states : Env :=
  mkEnv (fun _ => None) (VStr "12345") (VStr "secret") "http://localhost:3000"
        (fun _ => example_ms)
        (fun h => match h with [] => "9f86d081884c7d65" | _ => "0a1b2c3d4e5f6071" end)
        (fun _ _ => json_reply fresh_token_json).

(** A session with neither state nor token. *)
Definition anonymous : state := mkState (Some empty_session) [].

(** A request of the loop of [/api/activities] for the query values
    [after] and [before]. *)
Definition loop_request (after before : value)
           (rq : string * list (string * param) * value) : Prop :=
  fst (fst rq) = "/athlete/activities"
  /\ exists p : Z, snd (fst rq) = search_of (page_params (bound_of after) (bound_of before) p).

(** How a query value reaches the search parameters of a request: as the
    number of it when it is set, not at all when it is missing or empty. *)
Definition forwarded (k : string) (raw : value) (search : list (string * param)) : Prop :=
  if truthy raw then param_of k search = PNumberOf raw
  else ~ In k (map fst search).

(** What is observed of the events of a run of the loop. *)
Definition bounded_trace (after before : param) (fuel : nat) (evs : list event) : Prop :=
  (List.length (api_requests evs) <= fuel)%nat
  /\ (clock_reads evs <= fuel)%nat
  /\ (token_calls evs <= clock_reads evs)%nat
  /\ (List.length (api_requests evs) <= clock_reads evs)%nat
  /\ (forall c : bool, guarded c evs = true)
  /\ Forall (fun rq => fst (fst rq) = "/athlete/activities"
                       /\ exists p, snd (fst rq) = search_of (page_params after before p))
            (api_requests evs).

End Server.

(* ================================================================== *)
(** * The polyline decoder *)
(* ================================================================== *)

Module Polyline.

Local Open Scope Z_scope.

(** ** Bit operators of JavaScript: operands go through [ToInt32], shift
    counts are taken modulo 32, results are 32-bit signed integers. *)

Definition to_int32 (z : Z) : Z := (z + 2 ^ 31) mod 2 ^ 32 - 2 ^ 31.

Definition js_and (a b : Z) : Z := Z.land (to_int32 a) (to_int32 b).
Definition js_ior (a b : Z) : Z := Z.lor (to_int32 a) (to_int32 b).
Definition js_not (a : Z) : Z := Z.lnot (to_int32 a).
Definition js_shl (a n : Z) : Z := to_int32 (Z.shiftl (to_int32 a) (Z.land n 31)).
Definition js_sar (a n : Z) : Z := Z.shiftr (to_int32 a) (Z.land n 31).

(** The UTF-16 code units of a string whose characters are below 256. *)
Fixpoint code_units (s : string) : list Z :=
  match s with
  | EmptyString => []
  | String c rest => Z.of_N (N_of_ascii c) :: code_units rest
  end.

(** One [do { ... } while (byte >= 0x20)] loop.  [str] is the part of the
    string from [index] on; past the end [charCodeAt] is [NaN], which the
    bit operators read as 0 and which fails the loop test. *)
Fixpoint chunk (str : list Z) (shift result : Z) : Z * list Z :=
  match str with
  | [] => (js_ior result (js_shl (js_and 0 31) shift), [])
  | c :: rest =>
      let byte := c - 63 in
      let result := js_ior result (js_shl (js_and byte 31) shift) in
      let shift := shift + 5 in
      if byte >=? 32 then chunk rest shift result else (result, rest)
  end.

(** [(result & 1) ? ~(result >> 1) : (result >> 1)] *)
Definition change_of (result : Z) : Z :=
  if negb (js_and result 1 =? 0) then js_not (js_sar result 1) else js_sar result 1.

Definition Coordinate : Type := (Q * Q)%type.

(** The [while (index < str.length)] loop, one unit of [fuel] per turn;
    [None] when the fuel runs out first. *)
Fixpoint decode_loop (fuel : nat) (str : list Z) (lat lng : Z) (factor : Q)
         (coordinates : list Coordinate) : option (list Coordinate) :=
  match str with
  | [] => Some coordinates
  | _ :: _ =>
      match fuel with
      | O => None
      | S fuel' =>
          let (result, str) := chunk str 0 0 in
          let latitude_change := change_of result in
          let (result, str) := chunk str 0 0 in
          let longitude_change := change_of result in
          let lat := lat + latitude_change in
          let lng := lng + longitude_change in
          decode_loop fuel' str lat lng factor
                      (coordinates ++ [(inject_Z lat / factor, inject_Z lng / factor)%Q])
      end
  end.

(** [precision || 5], for an integer or absent [precision]. *)
Definition precision_or_5 (precision : option Z) : Z :=
  match precision with
  | Some p => if p =? 0 then 5 else p
  | None => 5
  end.

(** [Math.pow(10, precision || 5)] *)
Definition factor_of (precision : option Z) : Q := Qpower 10 (precision_or_5 precision).

(** [decodePolyline(str, precision)].  Every turn of the outer loop
    consumes at least one character, so the length of the string is enough
    fuel: see [PolylineDecoder.decodePolyline_total]. *)
Definition decodePolyline (str : string) (precision : option Z) : option (list Coordinate) :=
  let units := code_units str in
  decode_loop (List.length units) units 0 0 (factor_of precision) [].

(** ** The algorithm in the words of the specification, on unbounded
    integers and with the continuation test on bit 0x20.  A string that ends
    inside a point is outside the specification: [None]. *)

Fixpoint spec_chunk (str : list Z) (shift result : Z) : option (Z * list Z) :=
  match str with
  | [] => None
  | c :: rest =>
      let v := c - 63 in
      let result := Z.lor result (Z.shiftl (Z.land v 31) shift) in
      if Z.testbit v 5 then spec_chunk rest (shift + 5) result
      else Some (result, rest)
  end.

Definition spec_sign_extend (result : Z) : Z :=
  if Z.testbit result 0 then Z.lnot (Z.shiftr result 1) else Z.shiftr result 1.

Fixpoint spec_points (fuel : nat) (str : list Z) (lat lng : Z) (precision : Z)
  : option (list Coordinate) :=
  match str with
  | [] => Some []
  | _ :: _ =>
      match fuel with
      | O => None
      | S fuel' =>
          match spec_chunk str 0 0 with
          | None => None
          | Some (r1, str1) =>
              match spec_chunk str1 0 0 with
              | None => None
              | Some (r2, str2) =>
                  let lat := lat + spec_sign_extend r1 in
                  let lng := lng + spec_sign_extend r2 in
                  match spec_points fuel' str2 lat lng precision with
                  | None => None
                  | Some rest =>
                      Some ((inject_Z lat / Qpower 10 precision,
                             inject_Z lng / Qpower 10 precision)%Q :: rest)
                  end
              end
          end
      end
  end.

Definition spec_decode (str : string) (precision : Z) : option (list Coordinate) :=
  let units := code_units str in
  spec_points (List.length units) units 0 0 precision.

(** A well-formed encoding: characters from [?] (63) to [~] (126), grouped
    in chunks of at most six characters of which exactly the last is below
    95, with an even number of chunks. *)
Fixpoint well_formed_from (str : list Z) (seen : nat) (second : bool) : bool :=
  match str with
  | [] => Nat.eqb seen 0 && negb second
  | c :: rest =>
      if (95 <=? c) && (c <=? 126) then Nat.ltb seen 5 && well_formed_from rest (S seen) second
      else if (63 <=? c) && (c <=? 94) then well_formed_from rest 0 (negb second)
      else false
  end.

Definition well_formed (str : string) : bool := well_formed_from (code_units str) 0 false.

(** Comparison of coordinate sequences up to a tolerance. *)
Definition within (tol : Q) (a b : Coordinate) : bool :=
  Qle_bool (Qabs (fst a - fst b)) tol && Qle_bool (Qabs (snd a - snd b)) tol.

Fixpoint all_within (tol : Q) (l r : list Coordinate) : bool :=
  match l, r with
  | [], [] => true
  | a :: l', b :: r' => within tol a b && all_within tol l' r'
  | _, _ => false
  end.

(** The example of the format's documentation. *)
Definition reference_path : string := "_p~iF~ps|U_ulLnnqC_mqNvxq`@".

Definition reference_coordinates : list Coordinate :=
  [(38.5, -120.2); (40.7, -120.95); (43.252, -126.453)]%Q.

(** ** Counting chunks *)

(** The number of chunk ends (characters below 95) in a string. *)
Definition chunk_ends (str : list Z) : nat :=
  List.length (filter (fun c => c <? 95) str).

(** ** The accumulators behind the coordinates *)

(** [[lat / factor, lng / factor]] for a pair of accumulators. *)
Definition scale (factor : Q) (p : Z * Z) : Coordinate :=
  (inject_Z (fst p) / factor, inject_Z (snd p) / factor)%Q.

End Polyline.

(* ================================================================== *)
(** * The heatmap grid *)
(* ================================================================== *)

Module Heatmap.

Import Polyline.

Local Open Scope Q_scope.

(** [Math.round(x)]: the nearest integer, ties upwards. *)
Definition js_round (x : Q) : Z := Qfloor (x + (1 # 2)).

(** The key of a cell.  The source builds the text [rlat + ',' + rlng] with
    [rlat = Math.round(lat * 10000) / 10000]; that text and the pair of
    rounded integers determine each other, and the pair is what is kept. *)
Definition Key : Type := (Z * Z)%type.

Definition key_of (lat lng : Q) : Key :=
  (js_round (lat * 10000), js_round (lng * 10000)).

Definition key_eqb (a b : Key) : bool :=
  Z.eqb (fst a) (fst b) && Z.eqb (snd a) (snd b).

(** The object stored in [freq]. *)
Record GridCell : Type := mkCell { lat : Q; lng : Q; w : Z }.

(** [freq], a [Map] in insertion order. *)
Definition Grid : Type := list (Key * GridCell).

(** [freq.get(key)] *)
Fixpoint grid_get (key : Key) (freq : Grid) : option GridCell :=
  match freq with
  | [] => None
  | (k, v) :: rest => if key_eqb key k then Some v else grid_get key rest
  end.

(** [freq.set(key, v)]: an existing entry keeps its place, a new one goes
    last. *)
Fixpoint grid_set (key : Key) (v : GridCell) (freq : Grid) : Grid :=
  match freq with
  | [] => [(key, v)]
  | (k, v') :: rest =>
      if key_eqb key k then (k, v) :: rest else (k, v') :: grid_set key v rest
  end.

(** [pushPoint(lat, lng)], on [freq]. *)
Definition pushPoint (freq : Grid) (p : Coordinate) : Grid :=
  let rlat := inject_Z (js_round (fst p * 10000)) / 10000 in
  let rlng := inject_Z (js_round (snd p * 10000)) / 10000 in
  let key := key_of (fst p) (snd p) in
  let v := match grid_get key freq with
           | Some v => v
           | None => mkCell rlat rlng 0
           end in
  let v := mkCell (lat v) (lng v) (w v + 1) in
  grid_set key v freq.

(** [Math.floor(Math.sqrt(d2) / unit)] in exact arithmetic: the integer
    square root of the integer part of [d2 / unit^2]; see
    [floor_dist_spec]. *)
Definition floor_dist (d2 unit : Q) : Z := Z.sqrt (Qfloor (d2 / (unit * unit))).

Definition step_length : Q := 5 # 10000.

(** [steps], for a point [c] and its successor [n]. *)
Definition steps_between (c n : Coordinate) : Z :=
  let dLat := fst n - fst c in
  let dLng := snd n - snd c in
  Z.max 0 (floor_dist (dLat * dLat + dLng * dLng) step_length).

(** The point of index [s] between [c] and [n]. *)
Definition interpolate (c n : Coordinate) (steps s : Z) : Coordinate :=
  let dLat := fst n - fst c in
  let dLng := snd n - snd c in
  (fst c + dLat * inject_Z s / inject_Z (steps + 1),
   snd c + dLng * inject_Z s / inject_Z (steps + 1)).

(** The values of [s] in [for (s = 1; s <= steps; s++)]. *)
Definition step_indices (steps : Z) : list Z :=
  map Z.of_nat (seq 1 (Z.to_nat steps)).

(** The inner [for] loop. *)
Definition densify (freq : Grid) (c n : Coordinate) : Grid :=
  let steps := steps_between c n in
  fold_left (fun freq s => pushPoint freq (interpolate c n steps s))
            (step_indices steps) freq.

(** The loop over the points of one route, on the points from [i] on. *)
Fixpoint walk (freq : Grid) (coords : list Coordinate) : Grid :=
  match coords with
  | [] => freq
  | c :: rest =>
      let freq := pushPoint freq c in
      match rest with
      | [] => freq
      | n :: _ => walk (densify freq c n) rest
      end
  end.

(** The [forEach] over the decoded routes, from an empty [freq]. *)
Definition aggregate (routes : list (list Coordinate)) : Grid :=
  fold_left walk routes [].

(** [heatData] *)
Definition heat_data (freq : Grid) : list (Q * Q * Z) :=
  map (fun kv => (lat (snd kv), lng (snd kv), w (snd kv))) freq.

(** The heat branch of [renderRoutes] from the polylines of the filtered
    activities: [None] only if some decoding runs out of fuel. *)
Fixpoint decode_all (polylines : list string) : option (list (list Coordinate)) :=
  match polylines with
  | [] => Some []
  | p :: rest =>
      match decodePolyline p None, decode_all rest with
      | Some c, Some cs => Some (c :: cs)
      | _, _ => None
      end
  end.

Definition render_heat (polylines : list string) : option (list (Q * Q * Z)) :=
  option_map (fun routes => heat_data (aggregate routes)) (decode_all polylines).

(** ** What the grid is compared with *)

(** The real points of a route and, after each but the last, the
    interpolated points towards its successor. *)
Fixpoint deposited (coords : list Coordinate) : list Coordinate :=
  match coords with
  | [] => []
  | c :: rest =>
      c :: match rest with
           | [] => []
           | n :: _ =>
               map (interpolate c n (steps_between c n))
                   (step_indices (steps_between c n)) ++ deposited rest
           end
  end.

(** The number of interpolated points of a route. *)
Fixpoint interpolated_count (coords : list Coordinate) : Z :=
  match coords with
  | [] => 0%Z
  | c :: rest =>
      match rest with
      | [] => 0%Z
      | n :: _ => (steps_between c n + interpolated_count rest)%Z
      end
  end.

Definition total_weight (freq : Grid) : Z :=
  fold_right (fun kv acc => (w (snd kv) + acc)%Z) 0%Z freq.

Definition weight_at (key : Key) (freq : Grid) : Z :=
  match grid_get key freq with
  | Some v => w v
  | None => 0%Z
  end.

(** How many of the points fall in the cell of [key]. *)
Definition hits (key : Key) (points : list Coordinate) : Z :=
  Z.of_nat (List.length (filter (fun p => key_eqb (key_of (fst p) (snd p)) key) points)).

(** ** The invariant of the grid *)

(** The points deposited for a list of routes, and its real points. *)
Definition all_deposited (routes : list (list Coordinate)) : list Coordinate :=
  flat_map deposited routes.

Definition real_points (routes : list (list Coordinate)) : Z :=
  Z.of_nat (List.length (List.concat routes)).

(** A cell sits at its key: latitude and longitude are the rounded
    integers over 10000. *)
Definition cell_at_key (kv : Key * GridCell) : Prop :=
  lat (snd kv) = (inject_Z (fst (fst kv)) / 10000)%Q
  /\ lng (snd kv) = (inject_Z (snd (fst kv)) / 10000)%Q.

(** The invariant of [freq]: distinct keys, weights from 1, cells at their
    keys. *)
Definition grid_ok (freq : Grid) : Prop :=
  NoDup (map fst freq)
  /\ Forall (fun kv => (1 <= w (snd kv))%Z) freq
  /\ Forall cell_at_key freq.

End Heatmap.

(* ================================================================== *)
(** * The browser side: the filter of [renderRoutes] *)
(* ================================================================== *)

Module Client.

Import Server.

Local Open Scope string_scope.
Local Open Scope js_scope.

Section Filter.

(** [String.prototype.toLowerCase], a built-in of the runtime. *)
Variable toLowerCase : string -> string.

(** The callback of [allActivities.filter(...)], for the value [selected]
    of the sport selector.  Calling [toLowerCase] on a value that is not a
    string throws. *)
Definition sport_matches (selected : string) (a : value) : outcome bool :=
  let! polyline := get a "polyline" in
  if negb (truthy polyline) then Return false
  else if negb (truthy (VStr selected)) || String.eqb selected "all" then Return true
  else
    let! sport := get a "sport_type" in
    match js_or sport (VStr "") with
    | VStr st => Return (String.eqb (toLowerCase st) (toLowerCase selected))
    | _ => Throw (TypeError "toLowerCase is not a function")
    end.

(** [filtered] *)
Definition filtered (selected : string) (allActivities : list value)
  : outcome (list value) :=
  filter_cb (sport_matches selected) allActivities.

(** The sport of a record is a string, or is missing. *)
Definition sport_is_text (a : value) : Prop :=
  match prop a "sport_type" with
  | VUndefined | VNull | VStr _ => True
  | _ => False
  end.

(** The text compared with the selection: [a.sport_type || ''] lowered. *)
Definition lowered_sport (a : value) : string :=
  match js_or (prop a "sport_type") (VStr "") with
  | VStr st => toLowerCase st
  | _ => ""
  end.

End Filter.

(** Lowering of the letters [A] to [Z], enough for the examples. *)
Definition ascii_lower (c : ascii) : ascii :=
  let n := nat_of_ascii c in
  if (Nat.leb 65 n && Nat.leb n 90)%bool then ascii_of_nat (n + 32) else c.

Fixpoint lower_ascii (s : string) : string :=
  match s with
  | EmptyString => EmptyString
  | String c rest => String (ascii_lower c) (lower_ascii rest)
  end.

(** The polyline branch of [renderRoutes], on the polylines of the filtered
    activities when these are strings: the lines added to [routesLayer], in
    order, and the points pushed on [bounds].  [None] only if some decoding
    runs out of fuel. *)
Fixpoint draw_lines (polylines : list string)
  : option (list (list Polyline.Coordinate) * list Polyline.Coordinate) :=
  match polylines with
  | [] => Some ([], [])
  | p :: rest =>
      match Polyline.decodePolyline p None, draw_lines rest with
      | Some coords, Some (lines, bounds) =>
          if Nat.eqb (List.length coords) 0 then Some (lines, bounds)
          else Some (coords :: lines, (coords ++ bounds)%list)
      | _, _ => None
      end
  end.

(** [if (bounds.length) map.fitBounds(bounds, ...)] *)
Definition fits_bounds (bounds : list Polyline.Coordinate) : bool :=
  negb (Nat.eqb (List.length bounds) 0).

End Client.

(* ================================================================== *)
(** * Token lifecycle: [refreshIfNeeded] and [isAuthed] *)
(* ================================================================== *)

Module TokenLifecycle.

Import Server.

Local Open Scope string_scope.
Local Open Scope Z_scope.
Local Open Scope list_scope.

Lemma events_since_app (s s' : state) (evs : list event) :
  history s' = history s ++ evs -> events_since s s' = evs.
Proof.
  unfold events_since. intros ->.
  rewrite skipn_app, skipn_all, Nat.sub_diag. reflexivity.
Qed.

(** [refreshIfNeeded] without a session or without a record does nothing. *)
Lemma refresh_absent (E : Env) (s : state) :
  (session s = None \/ exists sess, session s = Some sess /\ strava sess = None) ->
  refreshIfNeeded E s = (Return tt, s).
Proof.
  unfold refreshIfNeeded, bind, get_session, ret.
  intros [H | (sess & H & H')]; rewrite H; [reflexivity|].
  rewrite H'. reflexivity.
Qed.

(** With a record, it reads the clock and then follows the test. *)
Lemma refresh_present (E : Env) (s : state) (sess : Session) (data : TokenRecord) :
  session s = Some sess ->
  strava sess = Some data ->
  refreshIfNeeded E s =
  if refresh_due E data (now_of E s) then
    bind (fetch E (refresh_request E data))
         (fun res =>
            if ok res then
              bind (res_json res)
                   (fun json => bind (lift (refreshed_record json data)) set_strava)
            else emit (EvLog "Token refresh failed" (text res)))
         (after_clock E s)
  else (Return tt, after_clock E s).
Proof.
  intros Hs Hd.
  unfold refreshIfNeeded, bind at 1, get_session. rewrite Hs, Hd.
  unfold bind at 1, now_seconds. fold (now_of E s). fold (after_clock E s).
  destruct (refresh_due E data (now_of E s)); reflexivity.
Qed.

Lemma refreshed_record_value (json : value) (data : TokenRecord) :
  nullish json = false ->
  refreshed_record json data =
  Return (mkToken (prop json "access_token") (prop json "refresh_token")
                  (prop json "expires_at")
                  (if truthy (prop json "athlete") then prop json "athlete"
                   else athlete data)).
Proof.
  intros H. unfold refreshed_record, get. rewrite H. reflexivity.
Qed.

Lemma refreshed_record_nullish (json : value) (data : TokenRecord) :
  nullish json = true -> exists e, refreshed_record json data = Throw e.
Proof.
  intros H. unfold refreshed_record, get. rewrite H. simpl. eauto.
Qed.

(** The successful path of [refreshIfNeeded], step by step. *)
Lemma refresh_success_run (E : Env) (s : state) (sess : Session) (data : TokenRecord)
      (r : response) (j : value) :
  session s = Some sess ->
  strava sess = Some data ->
  refresh_due E data (now_of E s) = true ->
  remote E (history (after_clock E s)) (refresh_request E data) = Resolved r ->
  ok r = true ->
  json r = Some j ->
  nullish j = false ->
  refreshIfNeeded E s =
  (Return tt,
   mkState (Some (mkSession (oauth_state sess)
                    (Some (mkToken (prop j "access_token") (prop j "refresh_token")
                                   (prop j "expires_at")
                                   (if truthy (prop j "athlete") then prop j "athlete"
                                    else athlete data)))))
           (history (after_clock E s) ++ [EvFetch (refresh_request E data) (Resolved r)])).
Proof.
  intros Hs Hd Hdue Hr Hok Hj Hn.
  rewrite (refresh_present E s sess data Hs Hd), Hdue.
  unfold bind at 1, fetch. rewrite Hr, Hok.
  unfold bind at 1, res_json. rewrite Hj. unfold ret.
  unfold bind, lift. rewrite (refreshed_record_value j data Hn).
  unfold set_strava. simpl. rewrite Hs. reflexivity.
Qed.

(** The failing path: the response is not [ok]. *)
Lemma refresh_failure_run (E : Env) (s : state) (sess : Session) (data : TokenRecord)
      (r : response) :
  session s = Some sess ->
  strava sess = Some data ->
  refresh_due E data (now_of E s) = true ->
  remote E (history (after_clock E s)) (refresh_request E data) = Resolved r ->
  ok r = false ->
  refreshIfNeeded E s =
  (Return tt,
   mkState (session s)
           (history s ++ [EvNow (clock_ms E (history s));
                          EvFetch (refresh_request E data) (Resolved r);
                          EvLog "Token refresh failed" (text r)])).
Proof.
  intros Hs Hd Hdue Hr Hok.
  rewrite (refresh_present E s sess data Hs Hd), Hdue.
  unfold bind, fetch. rewrite Hr, Hok. unfold emit, after_clock. simpl.
  rewrite <- !app_assoc. reflexivity.
Qed.

(** Not due: only the clock has been read. *)
Lemma refresh_not_due_run (E : Env) (s : state) (sess : Session) (data : TokenRecord) :
  session s = Some sess ->
  strava sess = Some data ->
  refresh_due E data (now_of E s) = false ->
  refreshIfNeeded E s = (Return tt, after_clock E s).
Proof.
  intros Hs Hd Hdue. rewrite (refresh_present E s sess data Hs Hd), Hdue. reflexivity.
Qed.

(** [stravaFetch] once the freshness check has returned: one request with
    the access token then in the session, and nothing else. *)
Lemma stravaFetch_run (E : Env) (s s1 : state) (sess1 : Session) (data1 : TokenRecord)
      (path : string) (params : list (string * param)) :
  refreshIfNeeded E s = (Return tt, s1) ->
  session s1 = Some sess1 ->
  strava sess1 = Some data1 ->
  stravaFetch E path params s =
  (api_outcome (remote E (history s1)
                       (ApiRequest path (search_of params) (access_token data1))),
   mkState (session s1)
           (history s1 ++
            [EvFetch (ApiRequest path (search_of params) (access_token data1))
                     (remote E (history s1)
                             (ApiRequest path (search_of params) (access_token data1)))])).
Proof.
  intros Hrun Hs Hd.
  unfold stravaFetch, bind at 1. rewrite Hrun.
  unfold bind at 1, read_access_token, bind at 1, get_session.
  rewrite Hs, Hd. unfold ret, bind, fetch, api_outcome.
  destruct (remote E (history s1) (ApiRequest path (search_of params) (access_token data1)))
    as [m|r]; [rewrite ?Hs; reflexivity|].
  destruct (negb (ok r)); [rewrite ?Hs; reflexivity|].
  unfold res_json, ret, throw. destruct (json r); rewrite ?Hs; reflexivity.
Qed.

(** A freshness check that throws ends [stravaFetch] there. *)
Lemma stravaFetch_refresh_throws (E : Env) (s s1 : state) (e : exn)
      (path : string) (params : list (string * param)) :
  refreshIfNeeded E s = (Throw e, s1) ->
  stravaFetch E path params s = (Throw e, s1).
Proof.
  intros Hrun. unfold stravaFetch, bind at 1. rewrite Hrun. reflexivity.
Qed.

Lemma refresh_history (E : Env) (s : state) (sess : Session) (data : TokenRecord) :
  session s = Some sess ->
  strava sess = Some data ->
  history (snd (refreshIfNeeded E s)) =
  history s ++ EvNow (clock_ms E (history s)) :: refresh_tail E s data.
Proof.
  intros Hs Hd.
  destruct (refreshIfNeeded E s) as [o s'] eqn:Hrun. simpl.
  rewrite (refresh_present E s sess data Hs Hd) in Hrun.
  unfold refresh_tail.
  destruct (refresh_due E data (now_of E s)); [|inversion Hrun; reflexivity].
  unfold bind at 1, fetch in Hrun. cbv zeta.
  destruct (remote E (history (after_clock E s)) (refresh_request E data)) as [m|r].
  { inversion Hrun. simpl. rewrite <- app_assoc. reflexivity. }
  destruct (ok r).
  - unfold bind at 1, res_json in Hrun.
    destruct (json r) as [j|];
      [|inversion Hrun; simpl; rewrite <- app_assoc; reflexivity].
    unfold ret, bind, lift in Hrun.
    destruct (refreshed_record j data);
      [|inversion Hrun; simpl; rewrite <- app_assoc; reflexivity].
    unfold set_strava in Hrun. simpl in Hrun. rewrite Hs in Hrun.
    inversion Hrun. simpl. rewrite <- app_assoc. reflexivity.
  - unfold emit in Hrun. inversion Hrun. simpl. rewrite <- !app_assoc. reflexivity.
Qed.

Lemma token_calls_refresh (E : Env) (s : state) (data : TokenRecord) :
  token_calls (EvNow (clock_ms E (history s)) :: refresh_tail E s data) =
  if refresh_due E data (now_of E s) then 1%nat else 0%nat.
Proof.
  unfold refresh_tail, token_calls, refresh_request.
  destruct (refresh_due E data (now_of E s)); [|reflexivity].
  cbv zeta. simpl.
  match goal with |- context [remote E ?h ?q] => destruct (remote E h q) as [m|r] end;
    [reflexivity|].
  destruct (ok r); reflexivity.
Qed.

(** The number of refresh calls of one [refreshIfNeeded] with a record. *)
Lemma refresh_call_count (E : Env) (s : state) (sess : Session) (data : TokenRecord) :
  session s = Some sess ->
  strava sess = Some data ->
  token_calls (events_since s (snd (refreshIfNeeded E s))) =
  if refresh_due E data (now_of E s) then 1%nat else 0%nat.
Proof.
  intros Hs Hd.
  rewrite (events_since_app s _ _ (refresh_history E s sess data Hs Hd)).
  apply token_calls_refresh.
Qed.

(** The test for a record whose expiry is a number. *)
Lemma refresh_due_number (E : Env) (data : TokenRecord) (q : Q) (now : Z) :
  expires_at data = VNum q ->
  refresh_due E data now = true <-> (~ q == 0 /\ q - inject_Z now <= 300)%Q.
Proof.
  intros He. unfold refresh_due. rewrite He. simpl. unfold refresh_window.
  rewrite andb_true_iff, negb_true_iff, Qle_bool_iff.
  split; intros [H1 H2]; split; try assumption.
  - intros Hq. apply Qeq_bool_iff in Hq. congruence.
  - destruct (Qeq_bool q 0) eqn:Hq; [|reflexivity].
    apply Qeq_bool_iff in Hq. contradiction.
Qed.

(** Whatever the provider answers, the session after [refreshIfNeeded] is
    the old one or the old one with a complete new record. *)
Lemma refresh_session_cases (E : Env) (s : state) (sess : Session) (data : TokenRecord) :
  session s = Some sess ->
  strava sess = Some data ->
  session (snd (refreshIfNeeded E s)) = session s \/
  exists j : value,
    session (snd (refreshIfNeeded E s)) =
    Some (mkSession (oauth_state sess)
            (Some (mkToken (prop j "access_token") (prop j "refresh_token")
                           (prop j "expires_at")
                           (if truthy (prop j "athlete") then prop j "athlete"
                            else athlete data)))).
Proof.
  intros Hs Hd.
  destruct (refreshIfNeeded E s) as [o s'] eqn:Hrun. simpl.
  rewrite (refresh_present E s sess data Hs Hd) in Hrun.
  destruct (refresh_due E data (now_of E s));
    [|inversion Hrun; left; reflexivity].
  unfold bind at 1, fetch in Hrun.
  destruct (remote E (history (after_clock E s)) (refresh_request E data)) as [m|r];
    [inversion Hrun; left; reflexivity|].
  destruct (ok r); [|inversion Hrun; left; reflexivity].
  unfold bind at 1, res_json in Hrun.
  destruct (json r) as [j|]; [|inversion Hrun; left; reflexivity].
  unfold ret, bind, lift in Hrun.
  destruct (nullish j) eqn:Hn.
  - destruct (refreshed_record_nullish j data Hn) as [e He].
    rewrite He in Hrun. inversion Hrun. left. reflexivity.
  - rewrite (refreshed_record_value j data Hn) in Hrun.
    unfold set_strava in Hrun. simpl in Hrun. rewrite Hs in Hrun.
    inversion Hrun. right. exists j. reflexivity.
Qed.

(** In particular a record stays a record. *)
Lemma refresh_keeps_record (E : Env) (s : state) (sess : Session) (data : TokenRecord) :
  session s = Some sess ->
  strava sess = Some data ->
  exists sess1 data1,
    session (snd (refreshIfNeeded E s)) = Some sess1 /\ strava sess1 = Some data1.
Proof.
  intros Hs Hd.
  destruct (refresh_session_cases E s sess data Hs Hd) as [H | [j H]]; rewrite H.
  - exists sess, data. auto.
  - eexists _, _. split; reflexivity.
Qed.

(** C1. When the refresh call succeeds, [refreshIfNeeded] assigns to
    [req.session.strava] one new record built from the response: its
    [access_token], [refresh_token] and [expires_at] are those of the
    response and its [athlete] is the response's, or the old record's when
    the response has none.  And whatever the provider answers, the record
    left in the session is either the old one or such a complete new one:
    no mixture of old and new fields is ever stored. *)
Theorem refresh_success_swaps_record
        (E : Env) (s : state) (sess : Session) (data : TokenRecord) :
  session s = Some sess ->
  strava sess = Some data ->
  (forall (r : response) (j : value),
      refresh_due E data (now_of E s) = true ->
      remote E (history (after_clock E s)) (refresh_request E data) = Resolved r ->
      ok r = true ->
      json r = Some j ->
      nullish j = false ->
      refreshIfNeeded E s =
      (Return tt,
       mkState (Some (mkSession (oauth_state sess)
                        (Some (mkToken (prop j "access_token") (prop j "refresh_token")
                                       (prop j "expires_at")
                                       (if truthy (prop j "athlete") then prop j "athlete"
                                        else athlete data)))))
               (history (after_clock E s)
                ++ [EvFetch (refresh_request E data) (Resolved r)])))
  /\
  (session (snd (refreshIfNeeded E s)) = session s \/
   exists j : value,
     session (snd (refreshIfNeeded E s)) =
     Some (mkSession (oauth_state sess)
             (Some (mkToken (prop j "access_token") (prop j "refresh_token")
                            (prop j "expires_at")
                            (if truthy (prop j "athlete") then prop j "athlete"
                             else athlete data))))).
Proof.
  intros Hs Hd. split.
  - intros r j. apply refresh_success_run; assumption.
  - apply (refresh_session_cases E s sess data Hs Hd).
Qed.

Lemma refresh_success_swaps_record_witness :
  refreshIfNeeded provider_up expiring_soon =
  (Return tt,
   mkState (Some (mkSession (Some "9f86d081884c7d65")
                    (Some (mkToken (VStr "access-1") (VStr "refresh-1")
                                   (VNum 2000021600)
                                   (VObj [("firstname", VStr "Ada")])))))
           [EvNow example_ms;
            EvFetch (refresh_request provider_up
                       (token_of "access-0" (VNum 2000000100)))
                    (json_reply fresh_token_json)]).
Proof.
  apply (proj1 (refresh_success_swaps_record
                  provider_up expiring_soon
                  (mkSession (Some "9f86d081884c7d65")
                     (Some (token_of "access-0" (VNum 2000000100))))
                  (token_of "access-0" (VNum 2000000100))
                  eq_refl eq_refl)
               (mkResponse 200 "" (Some fresh_token_json)) fresh_token_json);
    reflexivity.
Defined.

(** C4. When the token endpoint answers the refresh call with a status that
    is not a success, [refreshIfNeeded] returns normally, leaves the session
    as it was and only logs the failure; [stravaFetch] then goes on and
    sends its request with the stale access token. *)
Theorem refresh_failure_keeps_record
        (E : Env) (s : state) (sess : Session) (data : TokenRecord) (r : response) :
  session s = Some sess ->
  strava sess = Some data ->
  refresh_due E data (now_of E s) = true ->
  remote E (history (after_clock E s)) (refresh_request E data) = Resolved r ->
  ok r = false ->
  refreshIfNeeded E s =
  (Return tt,
   mkState (session s)
           (history s ++ [EvNow (clock_ms E (history s));
                          EvFetch (refresh_request E data) (Resolved r);
                          EvLog "Token refresh failed" (text r)]))
  /\
  forall (path : string) (params : list (string * param)),
  exists res : fetch_result,
    history (snd (stravaFetch E path params s)) =
    history s ++ [EvNow (clock_ms E (history s));
                  EvFetch (refresh_request E data) (Resolved r);
                  EvLog "Token refresh failed" (text r);
                  EvFetch (ApiRequest path (search_of params) (access_token data)) res]
    /\ session (snd (stravaFetch E path params s)) = session s.
Proof.
  intros Hs Hd Hdue Hr Hok.
  pose proof (refresh_failure_run E s sess data r Hs Hd Hdue Hr Hok) as Hrun.
  split; [exact Hrun|].
  intros path params.
  rewrite (stravaFetch_run E s _ sess data path params Hrun Hs Hd). simpl.
  eexists. split; [|reflexivity].
  rewrite <- app_assoc. reflexivity.
Qed.

Lemma refresh_failure_keeps_record_witness :
  refreshIfNeeded provider_rejecting expiring_soon =
  (Return tt,
   mkState (session expiring_soon)
           [EvNow example_ms;
            EvFetch (refresh_request provider_rejecting
                       (token_of "access-0" (VNum 2000000100)))
                    (error_reply 401 "Authorization Error");
            EvLog "Token refresh failed" "Authorization Error"]).
Proof.
  apply (proj1 (refresh_failure_keeps_record
                  provider_rejecting expiring_soon
                  (mkSession (Some "9f86d081884c7d65")
                     (Some (token_of "access-0" (VNum 2000000100))))
                  (token_of "access-0" (VNum 2000000100))
                  (mkResponse 401 "Authorization Error" None)
                  eq_refl eq_refl eq_refl eq_refl eq_refl)).
Defined.

(** C10. A record whose [expires_at] is absent, [null] or 0 is never
    refreshed, whatever the clock says: [refreshIfNeeded] reads the clock,
    calls nobody and leaves the session as it is.  [isAuthed] looks at the
    access token only, so the session counts as authenticated before and
    after as soon as that token is not empty. *)
Theorem record_without_expiry_never_refreshed
        (E : Env) (s : state) (sess : Session) (data : TokenRecord) :
  session s = Some sess ->
  strava sess = Some data ->
  (expires_at data = VUndefined \/ expires_at data = VNull \/
   exists q : Q, expires_at data = VNum q /\ (q == 0)%Q) ->
  refreshIfNeeded E s = (Return tt, after_clock E s)
  /\ session (snd (refreshIfNeeded E s)) = session s
  /\ token_calls (events_since s (snd (refreshIfNeeded E s))) = 0%nat
  /\ isAuthed s = truthy (access_token data)
  /\ isAuthed (snd (refreshIfNeeded E s)) = truthy (access_token data).
Proof.
  intros Hs Hd He.
  assert (Hdue : refresh_due E data (now_of E s) = false).
  { unfold refresh_due.
    destruct He as [-> | [-> | (q & -> & Hq)]]; try reflexivity.
    simpl. apply Qeq_bool_iff in Hq. rewrite Hq. reflexivity. }
  pose proof (refresh_not_due_run E s sess data Hs Hd Hdue) as Hrun.
  pose proof (refresh_call_count E s sess data Hs Hd) as Hcount.
  rewrite Hdue in Hcount.
  rewrite Hrun. simpl. rewrite Hrun in Hcount. simpl in Hcount.
  unfold isAuthed. simpl. rewrite Hs, Hd. auto.
Qed.

Lemma record_without_expiry_never_refreshed_witness :
  refreshIfNeeded provider_up without_expiry =
  (Return tt, mkState (session without_expiry) [EvNow example_ms])
  /\ isAuthed without_expiry = true.
Proof.
  pose proof (record_without_expiry_never_refreshed
                provider_up without_expiry
                (mkSession None (Some (token_of "access-0" VUndefined)))
                (token_of "access-0" VUndefined)
                eq_refl eq_refl (or_introl eq_refl)) as H.
  split; [exact (proj1 H)|exact (proj1 (proj2 (proj2 (proj2 H))))].
Defined.

(** C3, as the code has it.  [refreshIfNeeded] calls the token endpoint,
    once, exactly when [expires_at] is not 0 and [expires_at - now <= 300].
    With [expires_at = now + 301] it calls nobody and leaves the session
    unchanged; with [expires_at = now + 299] (not 0) it makes exactly one
    call and, when that call succeeds, assigns the complete new record.
    Without a record it does nothing. *)
Theorem refresh_iff_due
        (E : Env) (s : state) (sess : Session) (data : TokenRecord) (q : Q) :
  session s = Some sess ->
  strava sess = Some data ->
  expires_at data = VNum q ->
  (token_calls (events_since s (snd (refreshIfNeeded E s))) = 1%nat <->
   (~ q == 0 /\ q - inject_Z (now_of E s) <= 300)%Q)
  /\ (token_calls (events_since s (snd (refreshIfNeeded E s))) <= 1)%nat
  /\ (q = inject_Z (now_of E s + 301) ->
      refreshIfNeeded E s = (Return tt, after_clock E s))
  /\ (q = inject_Z (now_of E s + 299) -> now_of E s + 299 <> 0 ->
      token_calls (events_since s (snd (refreshIfNeeded E s))) = 1%nat
      /\ forall (r : response) (j : value),
          remote E (history (after_clock E s)) (refresh_request E data) = Resolved r ->
          ok r = true -> json r = Some j -> nullish j = false ->
          session (snd (refreshIfNeeded E s)) =
          Some (mkSession (oauth_state sess)
                  (Some (mkToken (prop j "access_token") (prop j "refresh_token")
                                 (prop j "expires_at")
                                 (if truthy (prop j "athlete") then prop j "athlete"
                                  else athlete data)))))
  /\ (forall s0 : state,
         session s0 = None \/ (exists sess0, session s0 = Some sess0 /\ strava sess0 = None) ->
         refreshIfNeeded E s0 = (Return tt, s0)).
Proof.
  intros Hs Hd He.
  pose proof (refresh_call_count E s sess data Hs Hd) as Hcount.
  pose proof (refresh_due_number E data q (now_of E s) He) as Hdue.
  assert (Hin : forall k : Z, k <> 0 -> k <= 300 ->
                 q = inject_Z (now_of E s + k) ->
                 refresh_due E data (now_of E s) = true \/ now_of E s + k = 0).
  { intros k Hk Hle ->.
    destruct (Z.eq_dec (now_of E s + k) 0) as [Hz|Hz]; [right; exact Hz|left].
    apply Hdue. split.
    - unfold Qeq, inject_Z. simpl. lia.
    - unfold Qle, Qminus, Qplus, Qopp, inject_Z. simpl. lia. }
  split; [split|split; [|split; [|split]]].
  - intros H. apply Hdue.
    destruct (refresh_due E data (now_of E s)); [reflexivity|]. congruence.
  - intros H. apply Hdue in H. rewrite Hcount, H. reflexivity.
  - rewrite Hcount. destruct (refresh_due E data (now_of E s)); lia.
  - intros Hq. apply (refresh_not_due_run E s sess data Hs Hd).
    destruct (refresh_due E data (now_of E s)) eqn:Hb; [|reflexivity].
    apply (refresh_due_number E data q (now_of E s) He) in Hb.
    destruct Hb as [_ Hb]. subst q. exfalso.
    revert Hb. unfold Qle, Qminus, Qplus, Qopp, inject_Z. simpl. lia.
  - intros Hq Hne.
    destruct (Hin 299 ltac:(lia) ltac:(lia) Hq) as [Hb|Hz]; [|contradiction].
    split; [rewrite Hcount, Hb; reflexivity|].
    intros r j Hr Hok Hj Hn.
    rewrite (refresh_success_run E s sess data r j Hs Hd Hb Hr Hok Hj Hn).
    reflexivity.
  - intros s0 H0. apply refresh_absent. exact H0.
Qed.

Lemma refresh_iff_due_witness :
  token_calls (events_since expiring_soon
                 (snd (refreshIfNeeded provider_up expiring_soon))) = 1%nat.
Proof.
  apply (proj1 (refresh_iff_due
                  provider_up expiring_soon
                  (mkSession (Some "9f86d081884c7d65")
                     (Some (token_of "access-0" (VNum 2000000100))))
                  (token_of "access-0" (VNum 2000000100)) 2000000100%Q
                  eq_refl eq_refl eq_refl)).
  split.
  - intros H. vm_compute in H. discriminate H.
  - vm_compute. intros H. discriminate H.
Defined.

(** The claim as the specification states it fails on a record whose expiry
    is 0: the difference to the clock is far below 300, and no call is
    made. *)
Lemma refresh_iff_within_window_fails : ~ refresh_iff_within_window.
Proof.
  intros H.
  specialize (H provider_up expiry_zero
                (mkSession None (Some (token_of "access-0" (VNum 0))))
                (token_of "access-0" (VNum 0)) 0%Q eq_refl eq_refl eq_refl).
  destruct H as [_ H].
  assert (Hle : (0 - inject_Z (clock_ms provider_up (history expiry_zero) / 1000) <= 300)%Q).
  { vm_compute. intros K. discriminate K. }
  specialize (H Hle). vm_compute in H. discriminate H.
Qed.

End TokenLifecycle.

(* ================================================================== *)
(** * The authorization state: [/auth] and [/oauth/callback] *)
(* ================================================================== *)

Module OAuthState.

Import Server.

Local Open Scope string_scope.
Local Open Scope Z_scope.
Local Open Scope list_scope.

Lemma callback_missing_code (E : Env) (code st : value) (s : state) :
  truthy code = false ->
  oauth_callback E code st s = (Return (SendText 400 "Missing code"), s).
Proof.
  intros Hc. unfold oauth_callback, try_catch. rewrite Hc. reflexivity.
Qed.

Lemma callback_no_session (E : Env) (code st : value) (s : state) :
  truthy code = true ->
  session s = None ->
  exists e,
    oauth_callback E code st s =
    (Return (SendText 500 "OAuth Fehler. Details in Server-Logs."),
     mkState None (history s ++ [EvLogError e])).
Proof.
  intros Hc Hs. unfold oauth_callback, try_catch. rewrite Hc. simpl.
  unfold bind at 1, read_oauth_state, bind at 1, get_session. rewrite Hs.
  unfold throw, bind, emit, ret. simpl. rewrite Hs. eauto.
Qed.

Lemma callback_invalid_state (E : Env) (code st : value) (s : state) (sess : Session) :
  truthy code = true ->
  session s = Some sess ->
  state_differs st (oauth_state sess) = true ->
  oauth_callback E code st s = (Return (SendText 400 "Invalid state"), s).
Proof.
  intros Hc Hs Hd. unfold oauth_callback, try_catch. rewrite Hc. simpl.
  unfold bind at 1, read_oauth_state, bind at 1, get_session. rewrite Hs.
  unfold ret at 1. rewrite Hd. reflexivity.
Qed.

(** Past the two checks: one call to the token endpoint, then either the
    record is installed or the error is logged. *)
Lemma callback_accepted (E : Env) (code st : value) (s : state) (sess : Session) :
  truthy code = true ->
  session s = Some sess ->
  state_differs st (oauth_state sess) = false ->
  oauth_callback E code st s =
  match exchange_outcome (remote E (history s) (exchange_request E code)) with
  | Return record =>
      (Return (Redirect Root),
       mkState (Some (mkSession (oauth_state sess) (Some record)))
               (history s ++ [EvFetch (exchange_request E code)
                                      (remote E (history s) (exchange_request E code))]))
  | Throw e =>
      (Return (SendText 500 "OAuth Fehler. Details in Server-Logs."),
       mkState (Some sess)
               (history s ++ [EvFetch (exchange_request E code)
                                      (remote E (history s) (exchange_request E code));
                              EvLogError e]))
  end.
Proof.
  intros Hc Hs Hd. unfold oauth_callback, try_catch. rewrite Hc. simpl.
  unfold bind at 1, read_oauth_state, bind at 1, get_session. rewrite Hs.
  unfold ret at 1. rewrite Hd.
  unfold bind at 1, tokenExchange, bind at 1, fetch. fold (exchange_request E code).
  unfold exchange_outcome.
  destruct (remote E (history s) (exchange_request E code)) as [m|r].
  { unfold bind, emit, ret. simpl. rewrite Hs, <- app_assoc. reflexivity. }
  destruct (negb (ok r)).
  { unfold throw, bind, emit, ret. simpl. rewrite Hs, <- app_assoc. reflexivity. }
  unfold res_json. destruct (json r) as [token|].
  - unfold ret at 1. unfold bind at 1, lift.
    destruct (exchanged_record token) as [record|e].
    + unfold bind, set_strava, ret. simpl. rewrite Hs. reflexivity.
    + unfold bind, emit, ret. simpl. rewrite Hs, <- app_assoc. reflexivity.
  - unfold throw, bind, emit, ret. simpl. rewrite Hs, <- app_assoc. reflexivity.
Qed.

(** [state !== stored] is false exactly on identical strings, or when both
    sides are [undefined]. *)
Lemma state_differs_false (st : value) (stored : option string) :
  state_differs st stored = false <->
  (st = VUndefined /\ stored = None) \/ (exists x, st = VStr x /\ stored = Some x).
Proof.
  split.
  - destruct st, stored; simpl; try discriminate; auto.
    intros H. apply negb_false_iff, String.eqb_eq in H. subst. right. eauto.
  - intros [[-> ->] | (x & -> & ->)]; simpl; [reflexivity|].
    rewrite String.eqb_refl. reflexivity.
Qed.

(** [/auth] stores a new random state over the previous one. *)
Lemma auth_stores_state (E : Env) (s : state) (sess : Session) :
  session s = Some sess ->
  exists to,
    auth E s =
    (Return (Redirect to),
     mkState (Some (mkSession (Some (random_hex E (history s))) (strava sess)))
             (history s ++ [EvRandom (random_hex E (history s))])).
Proof.
  intros Hs. unfold auth, bind at 1, random_state.
  unfold bind at 1, get_session. simpl. rewrite Hs.
  unfold bind, put_session, ret. simpl. eauto.
Qed.

Lemma events_since_same (s : state) : events_since s s = [].
Proof.
  apply TokenLifecycle.events_since_app. symmetry. apply app_nil_r.
Qed.




End OAuthState.

(* ================================================================== *)
(** * Normalisation of the fetched activities: [cleaned] *)
(* ================================================================== *)

Module ActivityNormalizer.

Import Server.

Local Open Scope string_scope.
Local Open Scope list_scope.

Lemma truthy_not_nullish (v : value) : truthy v = true -> nullish v = false.
Proof. destruct v; simpl; congruence. Qed.

Lemma get_truthy (v : value) (k : string) : truthy v = true -> get v k = Return (prop v k).
Proof.
  intros H. unfold get. rewrite (truthy_not_nullish v H). reflexivity.
Qed.

(** The filter callback never throws, and tests the encoded path. *)
Lemma has_polyline_value (a : value) :
  has_polyline a = Return (truthy (encoded_path a)).
Proof.
  unfold has_polyline, encoded_path.
  destruct (truthy a) eqn:Ha.
  - rewrite (get_truthy a "map" Ha). simpl.
    destruct (truthy (prop a "map")) eqn:Hm.
    + rewrite (get_truthy _ "summary_polyline" Hm). reflexivity.
    + destruct (prop a "map") as [| |b|q|t|l|f|n]; simpl in Hm; try discriminate;
        reflexivity.
  - destruct a as [| |b|q|t|l|f|n]; simpl in Ha; try discriminate; reflexivity.
Qed.

(** A kept activity is an object whose [map] is an object. *)
Lemma kept_shape (a : value) :
  truthy (encoded_path a) = true ->
  nullish a = false /\ nullish (prop a "map") = false.
Proof.
  unfold encoded_path. intros H.
  destruct a as [| |b|q|t|l|f|n]; simpl in H; try discriminate; split; try reflexivity.
  simpl. destruct (assoc "map" f); simpl in *; try discriminate; reflexivity.
Qed.

Lemma route_record_value (a : value) :
  truthy (encoded_path a) = true -> route_record a = Return (route_of a).
Proof.
  intros H. destruct (kept_shape a H) as [Ha Hm].
  unfold route_record, route_of, encoded_path, js_or, get. rewrite Ha. simpl.
  destruct (truthy (prop a "sport_type")); simpl; rewrite ?Ha; simpl;
    rewrite Hm; reflexivity.
Qed.

Lemma filter_cb_value (all : list value) :
  filter_cb has_polyline all = Return (filter (fun a => truthy (encoded_path a)) all).
Proof.
  induction all as [|a rest IH]; [reflexivity|].
  simpl. rewrite has_polyline_value, IH. simpl.
  destruct (truthy (encoded_path a)); reflexivity.
Qed.

Lemma map_cb_value (kept : list value) :
  Forall (fun a => truthy (encoded_path a) = true) kept ->
  map_cb route_record kept = Return (map route_of kept).
Proof.
  induction 1 as [|a rest Ha _ IH]; [reflexivity|].
  simpl. rewrite (route_record_value a Ha), IH. reflexivity.
Qed.

(** [cleaned] on any list of values. *)
Lemma cleaned_value (all : list value) :
  cleaned all = Return (map route_of (filter (fun a => truthy (encoded_path a)) all)).
Proof.
  unfold cleaned. rewrite filter_cb_value. simpl.
  apply map_cb_value. apply Forall_forall. intros a Ha.
  apply filter_In in Ha. tauto.
Qed.

Lemma has_path_truthy (a : value) :
  path_is_text a -> truthy (encoded_path a) = has_path a.
Proof.
  unfold path_is_text, has_path. destruct (encoded_path a); simpl; tauto.
Qed.

Lemma filter_interleave (f : value -> bool) (good bad : list value) :
  Forall (fun a => f a = true) good ->
  Forall (fun a => f a = false) bad ->
  filter f (interleave good bad) = good.
Proof.
  intros Hg. revert bad.
  induction Hg as [|x xs Hx Hxs IH]; intros bad Hb.
  - simpl. induction Hb as [|y ys Hy _ IHb]; [reflexivity|].
    simpl. rewrite Hy. exact IHb.
  - destruct Hb as [|y ys Hy Hys].
    + simpl. rewrite Hx, app_nil_r. f_equal.
      clear IH. induction Hxs as [|z zs Hz _ IHz]; [reflexivity|].
      simpl. rewrite Hz, IHz. reflexivity.
    + simpl. rewrite Hx, Hy. f_equal. apply IH. exact Hys.
Qed.

(** C7. [cleaned] is a function of the list alone and returns on every
    list of values (it never throws).  On raw activities (encoded path a
    string or missing) it keeps, in order, exactly those that carry a
    non-empty encoded path, and of each kept one it copies [id], [name],
    [start_date], [distance] and the path, with [sport_type] taken from
    [sport_type] when that is set and from [type] otherwise.  A list that
    alternates activities with and without a path gives the records of the
    ones with a path, in order. *)
Theorem normalize_filters_and_projects (all : list value) :
  Forall path_is_text all ->
  cleaned all = Return (map route_of (filter has_path all))
  /\ (forall any : list value,
         cleaned any =
         Return (map route_of (filter (fun a => truthy (encoded_path a)) any)))
  /\ (forall a : value,
         prop (route_of a) "id" = prop a "id"
         /\ prop (route_of a) "name" = prop a "name"
         /\ prop (route_of a) "start_date" = prop a "start_date"
         /\ prop (route_of a) "distance" = prop a "distance"
         /\ prop (route_of a) "polyline" = encoded_path a
         /\ prop (route_of a) "sport_type" =
            (if truthy (prop a "sport_type") then prop a "sport_type" else prop a "type"))
  /\ (forall good bad : list value,
         all = interleave good bad ->
         Forall (fun a => has_path a = true) good ->
         Forall (fun a => has_path a = false) bad ->
         cleaned all = Return (map route_of good)).
Proof.
  intros Htyped.
  assert (H1 : cleaned all = Return (map route_of (filter has_path all))).
  { rewrite cleaned_value. do 2 f_equal. apply filter_ext_in.
    intros a Ha. apply has_path_truthy.
    rewrite Forall_forall in Htyped. auto. }
  split; [exact H1|].
  split; [exact cleaned_value|].
  split; [intros a; repeat split; reflexivity|].
  intros good bad Hall Hg Hb. rewrite H1. do 2 f_equal.
  subst all. apply filter_interleave; assumption.
Qed.

Lemma normalize_filters_and_projects_witness :
  cleaned [activity 0; VObj [("id", VNum 7)]; activity 1; VNull] =
  Return [route_of (activity 0); route_of (activity 1)].
Proof.
  refine (proj1 (normalize_filters_and_projects
                   [activity 0; VObj [("id", VNum 7)]; activity 1; VNull] _)).
  repeat (apply Forall_cons; [exact I|]). apply Forall_nil.
Defined.

End ActivityNormalizer.

(* ================================================================== *)
(** * The paginated fetch: [stravaFetch] and [GET /api/activities] *)
(* ================================================================== *)

Module ActivityFetcher.

Import Server.

Local Open Scope string_scope.
Local Open Scope Z_scope.
Local Open Scope list_scope.

(** ** Events of the freshness check among the others *)

Lemma refresh_tail_quiet (E : Env) (s : state) (data : TokenRecord) :
  forallb is_refresh_event (refresh_tail E s data) = true.
Proof.
  unfold refresh_tail, refresh_request.
  destruct (refresh_due E data (now_of E s)); [|reflexivity].
  cbv zeta. simpl.
  match goal with |- context [remote E ?h ?q] => destruct (remote E h q) as [m|r] end;
    [reflexivity|].
  destruct (ok r); reflexivity.
Qed.

Section QuietPrefix.

Variables (q rest : list event).
Hypothesis Hq : forallb is_refresh_event q = true.

Ltac quiet_induction :=
  revert Hq; induction q as [|ev q' IH]; intros Hq; [reflexivity|];
  simpl in Hq; apply andb_true_iff in Hq; destruct Hq as [Hev Hq'];
  destruct ev as [ms|hex|[form|path search bearer] res|label detail|e];
  simpl in Hev; try discriminate; simpl; auto.

Lemma api_requests_quiet : api_requests (q ++ rest) = api_requests rest.
Proof. quiet_induction. Qed.

Lemma fetched_items_quiet : fetched_items (q ++ rest) = fetched_items rest.
Proof. quiet_induction. Qed.

Lemma failed_pages_quiet : failed_pages (q ++ rest) = failed_pages rest.
Proof. quiet_induction. Qed.

Lemma clock_reads_quiet : clock_reads (q ++ rest) = clock_reads rest.
Proof. unfold clock_reads. quiet_induction. Qed.

Lemma guarded_quiet (c : bool) : guarded c (q ++ rest) = guarded c rest.
Proof. quiet_induction. Qed.

End QuietPrefix.

Lemma api_pages_quiet (q rest : list event) :
  forallb is_refresh_event q = true -> api_pages (q ++ rest) = api_pages rest.
Proof.
  intros Hq. unfold api_pages. rewrite (api_requests_quiet q rest Hq). reflexivity.
Qed.

(** ** One call of [stravaFetch] *)

(** With a record in the session, [stravaFetch] reads the clock, lets the
    freshness check talk to the token endpoint, and then either stops on an
    exception of that check or sends its one request. *)
Lemma stravaFetch_step (E : Env) (s : state) (sess : Session) (data : TokenRecord)
      (path : string) (params : list (string * param)) :
  session s = Some sess ->
  strava sess = Some data ->
  exists (q : list event) (o : outcome value) (s' : state)
         (sess' : Session) (data' : TokenRecord),
    forallb is_refresh_event q = true
    /\ session s' = Some sess'
    /\ strava sess' = Some data'
    /\ stravaFetch E path params s = (o, s')
    /\ ((exists e, o = Throw e
                   /\ history s' = history s ++ EvNow (clock_ms E (history s)) :: q)
        \/ (exists bearer res,
               o = api_outcome res
               /\ history s' =
                  history s ++
                  page_block (clock_ms E (history s)) q path (search_of params)
                             bearer res)).
Proof.
  intros Hs Hd.
  pose proof (TokenLifecycle.refresh_history E s sess data Hs Hd) as Hh.
  destruct (TokenLifecycle.refresh_keeps_record E s sess data Hs Hd)
    as (sess1 & data1 & Hs1 & Hd1).
  destruct (refreshIfNeeded E s) as [[[]|e] s1] eqn:Hrun; simpl in Hh, Hs1.
  - exists (refresh_tail E s data).
    exists (api_outcome
              (remote E (history s1)
                      (ApiRequest path (search_of params) (access_token data1)))).
    exists (mkState (session s1)
                    (history s1 ++
                     [EvFetch (ApiRequest path (search_of params) (access_token data1))
                              (remote E (history s1)
                                 (ApiRequest path (search_of params)
                                             (access_token data1)))])).
    exists sess1, data1.
    split; [apply refresh_tail_quiet|].
    split; [exact Hs1|]. split; [exact Hd1|].
    split; [apply (TokenLifecycle.stravaFetch_run E s s1 sess1 data1 path params
                     Hrun Hs1 Hd1)|].
    right. eexists _, _. split; [reflexivity|].
    unfold page_block. simpl. rewrite Hh, <- app_assoc. reflexivity.
  - exists (refresh_tail E s data). exists (Throw e), s1, sess1, data1.
    split; [apply refresh_tail_quiet|].
    split; [exact Hs1|]. split; [exact Hd1|].
    split; [apply TokenLifecycle.stravaFetch_refresh_throws; exact Hrun|].
    left. exists e. split; [reflexivity|exact Hh].
Qed.

(** One turn of the loop. *)
Lemma fetch_pages_turn (E : Env) (fuel : nat) (after before : param) (page : Z)
      (all : list value) (s : state) :
  fetch_pages E (S fuel) after before page all s =
  match stravaFetch E "/athlete/activities" (page_params after before page) s with
  | (Return batch, s1) =>
      match get batch "length" with
      | Return len =>
          if last_page E len then (Return (Some (concat_batch all batch)), s1)
          else if page + 1 >? page_cap then (Return (Some (concat_batch all batch)), s1)
               else fetch_pages E fuel after before (page + 1) (concat_batch all batch) s1
      | Throw e => (Throw e, s1)
      end
  | (Throw e, s1) => (Throw e, s1)
  end.
Proof.
  simpl. unfold bind at 1.
  destruct (stravaFetch E "/athlete/activities" (page_params after before page) s)
    as [[batch|e] s1]; [|reflexivity].
  unfold bind, lift. destruct (get batch "length") as [len|e]; [|reflexivity].
  destruct (last_page E len); [reflexivity|].
  destruct (page + 1 >? page_cap); reflexivity.
Qed.

(** ** The events of one page request, followed by others *)

Section PageBlock.

Variables (ms : Z) (q rest : list event).
Variables (path : string) (search : list (string * param)) (bearer : value).
Variable res : fetch_result.
Hypothesis Hq : forallb is_refresh_event q = true.

Lemma block_app :
  page_block ms q path search bearer res ++ rest =
  EvNow ms :: q ++ EvFetch (ApiRequest path search bearer) res :: rest.
Proof. unfold page_block. simpl. rewrite <- app_assoc. reflexivity. Qed.

Lemma api_requests_block :
  api_requests (page_block ms q path search bearer res ++ rest) =
  (path, search, bearer) :: api_requests rest.
Proof. rewrite block_app. simpl. rewrite (api_requests_quiet q _ Hq). reflexivity. Qed.

Lemma api_pages_block :
  api_pages (page_block ms q path search bearer res ++ rest) =
  page_number search :: api_pages rest.
Proof. unfold api_pages. rewrite api_requests_block. reflexivity. Qed.

Lemma clock_reads_block :
  clock_reads (page_block ms q path search bearer res ++ rest) = S (clock_reads rest).
Proof.
  rewrite block_app.
  change (clock_reads (EvNow ms :: q ++ EvFetch (ApiRequest path search bearer) res :: rest))
    with (S (clock_reads (q ++ EvFetch (ApiRequest path search bearer) res :: rest))).
  rewrite (clock_reads_quiet q _ Hq). reflexivity.
Qed.

Lemma guarded_block (c : bool) :
  guarded c (page_block ms q path search bearer res ++ rest) = guarded false rest.
Proof. rewrite block_app. simpl. rewrite (guarded_quiet q _ Hq). reflexivity. Qed.

Lemma fetched_items_block :
  fetched_items (page_block ms q path search bearer res ++ rest) =
  match res with
  | Resolved r =>
      match ok r, json r with
      | true, Some batch => items_of batch ++ fetched_items rest
      | _, _ => fetched_items rest
      end
  | NetworkError _ => fetched_items rest
  end.
Proof.
  rewrite block_app. simpl. rewrite (fetched_items_quiet q _ Hq).
  destruct res; reflexivity.
Qed.

Lemma failed_pages_block :
  failed_pages (page_block ms q path search bearer res ++ rest) =
  match res with
  | Resolved r => if ok r then failed_pages rest else r :: failed_pages rest
  | NetworkError _ => failed_pages rest
  end.
Proof.
  rewrite block_app. simpl. rewrite (failed_pages_quiet q _ Hq).
  destruct res; reflexivity.
Qed.

End PageBlock.

(** The events of a freshness check that threw. *)
Lemma quiet_only (ms : Z) (q : list event) :
  forallb is_refresh_event q = true ->
  api_requests (EvNow ms :: q) = [] /\ fetched_items (EvNow ms :: q) = []
  /\ failed_pages (EvNow ms :: q) = [].
Proof.
  intros Hq. simpl.
  rewrite <- (app_nil_r q).
  rewrite (api_requests_quiet q [] Hq), (fetched_items_quiet q [] Hq),
    (failed_pages_quiet q [] Hq).
  auto.
Qed.

Lemma page_number_params (after before : param) (page : Z) :
  page_number (search_of (page_params after before page)) = page
  /\ param_of "per_page" (search_of (page_params after before page)) = PNum per_page.
Proof.
  unfold page_params, search_of. destruct after, before; simpl; auto.
Qed.

Lemma pages_from_length (first : Z) (n : nat) : List.length (pages_from first n) = n.
Proof.
  revert first. induction n as [|n IH]; intros first; simpl; [reflexivity|].
  rewrite IH. reflexivity.
Qed.

(** ** The loop, whatever the provider answers *)

Section Loop.

Variable E : Env.
Variables after before : param.

Ltac close_block Hq :=
  repeat match goal with
         | |- context [fetched_items (page_block ?ms ?q ?p ?sr ?b ?res)] =>
             rewrite <- (app_nil_r (page_block ms q p sr b res))
         | |- context [failed_pages (page_block ?ms ?q ?p ?sr ?b ?res)] =>
             rewrite <- (app_nil_r (page_block ms q p sr b res))
         | |- context [api_pages (page_block ?ms ?q ?p ?sr ?b ?res)] =>
             rewrite <- (app_nil_r (page_block ms q p sr b res))
         end;
  rewrite ?(fetched_items_block _ _ _ _ _ _ _ Hq),
          ?(failed_pages_block _ _ _ _ _ _ _ Hq),
          ?(api_pages_block _ _ _ _ _ _ _ Hq).

Lemma fetch_pages_general (fuel : nat) :
  forall (page : Z) (all : list value) (s : state) (sess : Session) (data : TokenRecord),
    session s = Some sess ->
    strava sess = Some data ->
    exists (evs : list event) (o : outcome (option (list value))) (s' : state),
      fetch_pages E fuel after before page all s = (o, s')
      /\ history s' = history s ++ evs
      /\ (forall res, o = Return (Some res) ->
                      res = all ++ fetched_items evs /\ failed_pages evs = [])
      /\ (forall r, In r (failed_pages evs) -> o = Throw (Error (api_error_text r)))
      /\ api_pages evs = pages_from page (List.length (api_pages evs))
      /\ (List.length (api_pages evs) <= fuel)%nat
      /\ ((1 <= fuel)%nat -> 21 - page <= Z.of_nat fuel -> o <> Return None).
Proof.
  induction fuel as [|fuel IH]; intros page all s sess data Hs Hd.
  { exists [], (Return None), s. simpl.
    split; [reflexivity|]. split; [symmetry; apply app_nil_r|].
    split; [intros res H; discriminate H|].
    split; [intros r []|]. split; [reflexivity|]. split; [lia|]. lia. }
  rewrite fetch_pages_turn.
  destruct (stravaFetch_step E s sess data "/athlete/activities"
              (page_params after before page) Hs Hd)
    as (q & o1 & s1 & sess1 & data1 & Hq & Hs1 & Hd1 & Hrun & Hcase).
  rewrite Hrun.
  destruct (page_number_params after before page) as [Hpage _].
  destruct Hcase as [(e & -> & Hh) | (bearer & res & -> & Hh)].
  { (* the freshness check threw *)
    destruct (quiet_only (clock_ms E (history s)) q Hq) as (Ha & Hf & Hx).
    exists (EvNow (clock_ms E (history s)) :: q), (Throw e), s1.
    unfold api_pages. rewrite Ha, Hf, Hx. simpl.
    split; [reflexivity|]. split; [exact Hh|].
    split; [intros res H; discriminate H|].
    split; [intros r []|]. split; [reflexivity|]. split; [lia|].
    intros _ _ H. discriminate H. }
  destruct res as [m|r]; simpl api_outcome.
  { (* the request failed on the network *)
    eexists _, (Throw _), s1.
    split; [reflexivity|]. split; [exact Hh|].
    close_block Hq. rewrite Hpage. simpl.
    split; [intros res H; discriminate H|].
    split; [intros r []|]. split; [reflexivity|]. split; [lia|].
    intros _ _ H. discriminate H. }
  destruct (ok r) eqn:Hok; simpl negb; cbv iota.
  2:{ (* the answer is not a success *)
    eexists _, (Throw _), s1.
    split; [reflexivity|]. split; [exact Hh|].
    close_block Hq. rewrite Hok, Hpage. simpl.
    split; [intros res H; discriminate H|].
    split; [intros r' [<-|[]]; reflexivity|].
    split; [reflexivity|]. split; [lia|].
    intros _ _ H. discriminate H. }
  destruct (json r) as [batch|] eqn:Hj.
  2:{ (* the body is not JSON *)
    eexists _, (Throw _), s1.
    split; [reflexivity|]. split; [exact Hh|].
    close_block Hq. rewrite Hok, Hj, Hpage. simpl.
    split; [intros res H; discriminate H|].
    split; [intros r' []|]. split; [reflexivity|]. split; [lia|].
    intros _ _ H. discriminate H. }
  destruct (get batch "length") as [len|e].
  2:{ (* batch.length throws *)
    eexists _, (Throw _), s1.
    split; [reflexivity|]. split; [exact Hh|].
    close_block Hq. rewrite Hok, Hj, Hpage. simpl.
    split; [intros res H; discriminate H|].
    split; [intros r' []|]. split; [reflexivity|]. split; [lia|].
    intros _ _ H. discriminate H. }
  assert (Hstop : exists (evs : list event) (o : outcome (option (list value))) (s' : state),
             (Return (Some (concat_batch all batch)), s1) = (o, s')
             /\ history s' = history s ++ evs
             /\ (forall res, o = Return (Some res) ->
                             res = all ++ fetched_items evs /\ failed_pages evs = [])
             /\ (forall r, In r (failed_pages evs) -> o = Throw (Error (api_error_text r)))
             /\ api_pages evs = pages_from page (List.length (api_pages evs))
             /\ (List.length (api_pages evs) <= S fuel)%nat
             /\ ((1 <= S fuel)%nat -> 21 - page <= Z.of_nat (S fuel) -> o <> Return None)).
  { eexists _, _, s1.
    split; [reflexivity|]. split; [exact Hh|].
    close_block Hq. rewrite Hok, Hj, Hpage. simpl. rewrite ?app_nil_r.
    split; [intros res H; inversion H; auto|].
    split; [intros r' []|]. split; [reflexivity|]. split; [lia|].
    intros _ _ H. discriminate H. }
  destruct (last_page E len); [exact Hstop|].
  destruct (page + 1 >? page_cap) eqn:Hcap; [exact Hstop|].
  clear Hstop.
  destruct (IH (page + 1) (concat_batch all batch) s1 sess1 data1 Hs1 Hd1)
    as (evs2 & o & s' & Hrun2 & Hh2 & Hres & Hfail & Hpages & Hlen & Hfuel).
  exists (page_block (clock_ms E (history s)) q "/athlete/activities"
                     (search_of (page_params after before page)) bearer (Resolved r)
          ++ evs2), o, s'.
  rewrite (fetched_items_block _ _ _ _ _ _ _ Hq), (failed_pages_block _ _ _ _ _ _ _ Hq),
    (api_pages_block _ _ _ _ _ _ _ Hq), Hok, Hj, Hpage.
  split; [exact Hrun2|].
  split; [rewrite Hh2, Hh, app_assoc; reflexivity|].
  split.
  { intros res Ho. destruct (Hres res Ho) as [-> Hnone].
    split; [unfold concat_batch; rewrite app_assoc; reflexivity|exact Hnone]. }
  split; [exact Hfail|].
  split; [simpl; rewrite <- Hpages; reflexivity|].
  split; [simpl; lia|].
  intros _ Hbound. apply Hfuel.
  - unfold page_cap in Hcap. lia.
  - lia.
Qed.

End Loop.

(** ** The loop against a provider that answers every page *)

Lemma last_page_length (E : Env) (n : nat) :
  last_page E (VNum (inject_Z (Z.of_nat n))) = (Z.of_nat n <? per_page).
Proof.
  unfold last_page, to_number, num_lt, truthy, Qeq_bool, Qle_bool, inject_Z, per_page.
  simpl Qnum. simpl Qden. rewrite !Z.mul_1_r.
  destruct (Z.of_nat n <? 200) eqn:Hlt.
  - apply Z.ltb_lt in Hlt. apply orb_true_iff. right.
    apply negb_true_iff. apply Z.leb_gt. exact Hlt.
  - apply Z.ltb_ge in Hlt. apply orb_false_iff. split.
    + apply negb_false_iff, negb_true_iff. apply Z.eqb_neq. lia.
    + apply negb_false_iff. apply Z.leb_le. exact Hlt.
Qed.

Section FullPages.

Variable E : Env.
Variable N : Z.
Variables after before : param.
Hypothesis Htokens : tokens_well_formed E.
Hypothesis Hpages : serves_pages E N.

Lemma refresh_returns (s : state) (sess : Session) (data : TokenRecord) :
  session s = Some sess ->
  strava sess = Some data ->
  exists s1, refreshIfNeeded E s = (Return tt, s1).
Proof.
  intros Hs Hd. rewrite (TokenLifecycle.refresh_present E s sess data Hs Hd).
  destruct (refresh_due E data (now_of E s)); [|eauto].
  unfold bind at 1, fetch, refresh_request.
  match goal with
  | |- context [remote E ?h (TokenRequest ?f)] =>
      destruct (Htokens h f) as (r & -> & Hjson)
  end.
  destruct (ok r); [|unfold emit; eauto].
  destruct (Hjson eq_refl) as (j & Hj & Hn).
  unfold bind at 1, res_json. rewrite Hj. unfold ret, bind, lift.
  rewrite (TokenLifecycle.refreshed_record_value j data Hn).
  unfold set_strava. simpl. rewrite Hs. eauto.
Qed.

(** One page request against such a provider. *)
Lemma page_step (page : Z) (s : state) (sess : Session) (data : TokenRecord) :
  session s = Some sess ->
  strava sess = Some data ->
  exists (q : list event) (bearer : value) (r : response) (items : list value)
         (s' : state) (sess' : Session) (data' : TokenRecord),
    stravaFetch E "/athlete/activities" (page_params after before page) s =
    (Return (VArr items), s')
    /\ history s' =
       history s ++
       page_block (clock_ms E (history s)) q "/athlete/activities"
                  (search_of (page_params after before page)) bearer (Resolved r)
    /\ forallb is_refresh_event q = true
    /\ ok r = true
    /\ json r = Some (VArr items)
    /\ session s' = Some sess'
    /\ strava sess' = Some data'
    /\ (page < N -> Z.of_nat (List.length items) = per_page)
    /\ (page = N -> Z.of_nat (List.length items) < per_page).
Proof.
  intros Hs Hd.
  destruct (refresh_returns s sess data Hs Hd) as [s1 Hrun].
  pose proof (TokenLifecycle.refresh_history E s sess data Hs Hd) as Hh.
  destruct (TokenLifecycle.refresh_keeps_record E s sess data Hs Hd)
    as (sess1 & data1 & Hs1 & Hd1).
  rewrite Hrun in Hh, Hs1. simpl in Hh, Hs1.
  pose proof (TokenLifecycle.stravaFetch_run E s s1 sess1 data1 "/athlete/activities"
                (page_params after before page) Hrun Hs1 Hd1) as Hfetch.
  destruct (Hpages (history s1) "/athlete/activities"
                   (search_of (page_params after before page)) (access_token data1))
    as (r & items & Hr & Hok & Hj & Hfull & Hshort).
  destruct (page_number_params after before page) as [Hpage _].
  rewrite Hpage in Hfull, Hshort.
  rewrite Hr in Hfetch. simpl in Hfetch. rewrite Hok, Hj in Hfetch. simpl in Hfetch.
  exists (refresh_tail E s data), (access_token data1), r, items.
  eexists _, sess1, data1.
  split; [exact Hfetch|].
  split; [unfold page_block; simpl; rewrite Hh, <- app_assoc; reflexivity|].
  split; [apply refresh_tail_quiet|].
  auto 10.
Qed.

Lemma fetch_pages_count (fuel : nat) :
  forall (page : Z) (all : list value) (s : state) (sess : Session) (data : TokenRecord),
    session s = Some sess ->
    strava sess = Some data ->
    1 <= page <= 20 ->
    page <= N ->
    21 - page <= Z.of_nat fuel ->
    exists (evs : list event) (s' : state),
      fetch_pages E fuel after before page all s =
      (Return (Some (all ++ fetched_items evs)), s')
      /\ history s' = history s ++ evs
      /\ api_pages evs = pages_from page (Z.to_nat (Z.min N 20 - page + 1))
      /\ Forall page_request (api_requests evs)
      /\ clock_reads evs = Z.to_nat (Z.min N 20 - page + 1)
      /\ guarded false evs = true.
Proof.
  induction fuel as [|fuel IH]; intros page all s sess data Hs Hd Hrange HN Hfuel; [lia|].
  rewrite fetch_pages_turn.
  destruct (page_step page s sess data Hs Hd)
    as (q & bearer & r & items & s1 & sess1 & data1
        & Hrun & Hh & Hq & Hok & Hj & Hs1 & Hd1 & Hfull & Hshort).
  rewrite Hrun. unfold get. simpl nullish. cbv iota. simpl prop.
  rewrite last_page_length.
  destruct (page_number_params after before page) as [Hpage Hper].
  assert (Hstop : Z.min N 20 - page + 1 = 1 ->
            exists (evs : list event) (s' : state),
              (Return (Some (concat_batch all (VArr items))), s1) =
              (Return (Some (all ++ fetched_items evs)), s')
              /\ history s' = history s ++ evs
              /\ api_pages evs = pages_from page (Z.to_nat (Z.min N 20 - page + 1))
              /\ Forall page_request (api_requests evs)
              /\ clock_reads evs = Z.to_nat (Z.min N 20 - page + 1)
              /\ guarded false evs = true).
  { intros ->. eexists _, s1.
    split; [|split; [exact Hh|]].
    - rewrite <- (app_nil_r (page_block _ _ _ _ _ _)).
      rewrite (fetched_items_block _ _ _ _ _ _ _ Hq), Hok, Hj, app_nil_r. reflexivity.
    - rewrite <- (app_nil_r (page_block _ _ _ _ _ _)).
      rewrite (api_pages_block _ _ _ _ _ _ _ Hq), (api_requests_block _ _ _ _ _ _ _ Hq),
        (clock_reads_block _ _ _ _ _ _ _ Hq), (guarded_block _ _ _ _ _ _ _ Hq), Hpage.
      split; [reflexivity|]. split; [|split; reflexivity].
      constructor; [|constructor]. split; [reflexivity|exact Hper]. }
  destruct (Z.of_nat (List.length items) <? per_page) eqn:Hlt.
  { apply Hstop. apply Z.ltb_lt in Hlt. lia. }
  apply Z.ltb_ge in Hlt.
  destruct (page + 1 >? page_cap) eqn:Hcap.
  { apply Hstop. unfold page_cap in Hcap. lia. }
  clear Hstop. unfold page_cap in Hcap.
  assert (Hnext : page + 1 <= N) by lia.
  destruct (IH (page + 1) (concat_batch all (VArr items)) s1 sess1 data1 Hs1 Hd1
               ltac:(lia) Hnext ltac:(lia))
    as (evs2 & s' & Hrun2 & Hh2 & Hpages2 & Hreq2 & Hclock2 & Hguard2).
  exists (page_block (clock_ms E (history s)) q "/athlete/activities"
                     (search_of (page_params after before page)) bearer (Resolved r)
          ++ evs2), s'.
  rewrite (fetched_items_block _ _ _ _ _ _ _ Hq), (api_pages_block _ _ _ _ _ _ _ Hq),
    (api_requests_block _ _ _ _ _ _ _ Hq), (clock_reads_block _ _ _ _ _ _ _ Hq),
    (guarded_block _ _ _ _ _ _ _ Hq), Hok, Hj, Hpage.
  replace (Z.to_nat (Z.min N 20 - page + 1))
    with (S (Z.to_nat (Z.min N 20 - (page + 1) + 1))) by lia.
  split; [rewrite Hrun2; unfold concat_batch; simpl; rewrite app_assoc; reflexivity|].
  split; [rewrite Hh2, Hh, app_assoc; reflexivity|].
  split; [simpl; rewrite Hpages2; reflexivity|].
  split; [constructor; [split; [reflexivity|exact Hper]|exact Hreq2]|].
  split; [rewrite Hclock2; reflexivity|exact Hguard2].
Qed.

End FullPages.

(** ** The handler *)

Lemma failed_pages_app (a b : list event) :
  failed_pages (a ++ b) = failed_pages a ++ failed_pages b.
Proof.
  induction a as [|ev a IH]; [reflexivity|].
  destruct ev as [ms|hex|[form|path search bearer] [m|r]|label detail|e]; simpl; auto.
  destruct (ok r); simpl; rewrite IH; reflexivity.
Qed.

Lemma isAuthed_record (s : state) :
  isAuthed s = true ->
  exists sess data, session s = Some sess /\ strava sess = Some data.
Proof.
  unfold isAuthed. destruct (session s) as [sess|]; [|discriminate].
  destruct (strava sess) as [data|] eqn:Hd; [|discriminate]. intros _. eauto.
Qed.

(** Every run of the handler, in three cases. *)
Lemma api_activities_cases (E : Env) (after before : value) (s : state) :
  (isAuthed s = false
   /\ api_activities E after before s = (Return (Some not_authenticated), s))
  \/ (isAuthed s = true
      /\ exists (evs : list event) (e : exn) (session' : option Session),
        api_activities E after before s =
        (Return (Some (server_error (error_text e))),
         mkState session' (history s ++ evs ++ [EvLogError e]))
        /\ (forall r, In r (failed_pages evs) -> e = Error (api_error_text r)))
  \/ (isAuthed s = true
      /\ exists (evs : list event) (session' : option Session),
        api_activities E after before s =
        (Return (Some (activities_found
                         (map route_of
                              (filter (fun a => truthy (encoded_path a))
                                      (fetched_items evs))))),
         mkState session' (history s ++ evs))
        /\ failed_pages evs = []
        /\ api_pages evs = pages_from 1 (List.length (api_pages evs))
        /\ (List.length (api_pages evs) <= 20)%nat).
Proof.
  unfold api_activities, api_activities_fuel, try_catch, activities_body.
  destruct (isAuthed s) eqn:Hauth; simpl negb; cbv iota; [|left; auto].
  right.
  destruct (isAuthed_record s Hauth) as (sess & data & Hs & Hd).
  destruct (fetch_pages_general E (bound_of after) (bound_of before)
              (Z.to_nat page_cap) 1 [] s sess data Hs Hd)
    as (evs & o & s' & Hrun & Hh & Hres & Hfail & Hpages & Hlen & Hfuel).
  destruct o as [[all|]|e].
  - right. split; [reflexivity|]. exists evs, (session s').
    destruct (Hres all eq_refl) as [-> Hnone].
    unfold bind at 1. rewrite Hrun.
    unfold bind, lift, ret. simpl app. rewrite ActivityNormalizer.cleaned_value.
    destruct s' as [sn hn]. simpl in Hh. subst hn.
    split; [reflexivity|]. split; [exact Hnone|]. split; [exact Hpages|exact Hlen].
  - exfalso. apply Hfuel; [simpl; lia|simpl; lia|reflexivity].
  - left. split; [reflexivity|]. exists evs, e, (session s').
    unfold bind at 1. rewrite Hrun.
    unfold bind, emit, ret. simpl.
    rewrite Hh, <- app_assoc.
    split; [reflexivity|].
    intros r Hr. specialize (Hfail r Hr). inversion Hfail. reflexivity.
Qed.

(** The handler always answers: the fuel of the loop never runs out and no
    exception escapes the [catch]. *)
Lemma api_activities_fuel_enough (E : Env) (after before : value) (s : state) :
  exists (resp : http_response) (s' : state),
    api_activities E after before s = (Return (Some resp), s').
Proof.
  destruct (api_activities_cases E after before s)
    as [[_ H] | [[_ (evs & e & sn & H & _)] | [_ (evs & sn & H & _)]]];
    rewrite H; eauto.
Qed.



(** C6. When a page request is answered with a status that is not a
    success, the handler answers 500 with [error: "server_error"] and a
    message made of the upstream status and body.  In general the handler
    answers 401 (not authenticated), 500, or 200; and a 200 carries the
    normalisation of all the items of all the pages requested, every one of
    which was answered with success: no activity list is served after a
    failed page. *)
Theorem fetch_is_all_or_error (E : Env) (after before : value) (s : state) :
  let run := api_activities E after before s in
  let evs := events_since s (snd run) in
  history (snd run) = history s ++ evs
  /\ (forall r : response,
         In r (failed_pages evs) ->
         fst run = Return (Some (server_error (api_error_text r))))
  /\ ((fst run = Return (Some not_authenticated) /\ isAuthed s = false /\ evs = [])
      \/ (exists e : exn,
             fst run = Return (Some (server_error (error_text e)))
             /\ isAuthed s = true)
      \/ (exists routes : list value,
             fst run = Return (Some (activities_found routes))
             /\ isAuthed s = true
             /\ cleaned (fetched_items evs) = Return routes
             /\ failed_pages evs = []
             /\ api_pages evs = pages_from 1 (List.length (api_pages evs))
             /\ (List.length (api_pages evs) <= 20)%nat)).
Proof.
  cbv zeta.
  destruct (api_activities_cases E after before s)
    as [[Hauth Hrun] | [[Hauth (evs & e & sn & Hrun & Hfail)]
                       | [Hauth (evs & sn & Hrun & Hnone & Hpages & Hlen)]]];
    rewrite Hrun; simpl fst; simpl snd.
  - rewrite TokenLifecycle.events_since_app with (evs := []);
      [|symmetry; apply app_nil_r].
    split; [symmetry; apply app_nil_r|]. split; [intros r []|].
    left. auto.
  - rewrite TokenLifecycle.events_since_app with (evs := evs ++ [EvLogError e]);
      [|reflexivity].
    split; [reflexivity|]. split.
    + intros r Hr. rewrite failed_pages_app, app_nil_r in Hr.
      rewrite (Hfail r Hr). reflexivity.
    + right. left. exists e. auto.
  - rewrite TokenLifecycle.events_since_app with (evs := evs); [|reflexivity].
    split; [reflexivity|]. split; [rewrite Hnone; intros r []|].
    right. right. eexists. split; [reflexivity|]. split; [exact Hauth|].
    split; [apply ActivityNormalizer.cleaned_value|]. auto.
Qed.

Lemma fetch_is_all_or_error_witness :
  fst (api_activities provider_flaky VUndefined VUndefined signed_in) =
  Return (Some (server_error "Strava API error 500: boom")).
Proof.
  apply (proj1 (proj2 (fetch_is_all_or_error provider_flaky VUndefined VUndefined
                         signed_in))
               (mkResponse 500 "boom" None)).
  vm_compute. left. reflexivity.
Defined.

End ActivityFetcher.

(* ================================================================== *)
(** * The polyline decoder against the algorithm of the specification *)
(* ================================================================== *)

Module PolylineDecoder.

Import Polyline.

Local Open Scope Z_scope.

(** ** 32-bit operators on small operands *)

Lemma to_int32_small (x : Z) : - 2 ^ 31 <= x < 2 ^ 31 -> to_int32 x = x.
Proof.
  unfold to_int32. change (2 ^ 31) with 2147483648. change (2 ^ 32) with 4294967296.
  intros H. rewrite Z.mod_small by lia. lia.
Qed.

Lemma pow2_le_30 (n : Z) : 0 <= n <= 30 -> 0 < 2 ^ n <= 2 ^ 30.
Proof.
  intros H. split; [apply Z.pow_pos_nonneg; lia|].
  apply Z.pow_le_mono_r; lia.
Qed.

Lemma lor_bound (a b n : Z) :
  0 <= n -> 0 <= a < 2 ^ n -> 0 <= b < 2 ^ n -> 0 <= Z.lor a b < 2 ^ n.
Proof.
  intros Hn Ha Hb. split; [apply Z.lor_nonneg; lia|].
  destruct (Z.eq_dec (Z.lor a b) 0) as [H0|H0].
  { rewrite H0. apply Z.pow_pos_nonneg; lia. }
  assert (Hpos : 0 < Z.lor a b).
  { assert (0 <= Z.lor a b) by (apply Z.lor_nonneg; lia). lia. }
  assert (Hn' : 0 < n).
  { destruct (Z.eq_dec n 0) as [->|]; [|lia].
    change (2 ^ 0) with 1 in Ha, Hb.
    assert (a = 0) by lia. assert (b = 0) by lia. subst. simpl in H0. lia. }
  apply Z.log2_lt_pow2; [exact Hpos|].
  rewrite Z.log2_lor by lia.
  apply Z.max_lub_lt.
  - destruct (Z.eq_dec a 0) as [->|]; [exact Hn'|apply Z.log2_lt_pow2; lia].
  - destruct (Z.eq_dec b 0) as [->|]; [exact Hn'|apply Z.log2_lt_pow2; lia].
Qed.

Lemma land_31 (b : Z) : 0 <= Z.land b 31 < 32.
Proof.
  change 31 with (Z.ones 5). rewrite Z.land_ones by lia.
  change (2 ^ 5) with 32. apply Z.mod_pos_bound. lia.
Qed.

Lemma shiftl_bound (v s : Z) :
  0 <= v < 32 -> 0 <= s -> 0 <= Z.shiftl v s < 2 ^ (s + 5).
Proof.
  intros Hv Hs. rewrite Z.shiftl_mul_pow2 by lia.
  rewrite Z.pow_add_r by lia. change (2 ^ 5) with 32.
  assert (0 < 2 ^ s) by (apply Z.pow_pos_nonneg; lia). nia.
Qed.

Lemma testbit_5 (b : Z) : 0 <= b <= 63 -> Z.testbit b 5 = (b >=? 32).
Proof.
  intros Hb. rewrite Z.testbit_eqb by lia. change (2 ^ 5) with 32.
  destruct (b >=? 32) eqn:Hc.
  - assert (b / 32 = 1) by (Z.div_mod_to_equations; lia).
    replace (b / 32) with 1 by lia. reflexivity.
  - assert (b / 32 = 0) by (Z.div_mod_to_equations; lia).
    replace (b / 32) with 0 by lia. reflexivity.
Qed.

(** One character of a chunk: the 32-bit operators of the source compute
    what the unbounded ones do, and the result stays below [2^(shift+5)]. *)
Lemma accumulate_small (byte shift result : Z) :
  0 <= byte <= 63 ->
  0 <= shift <= 25 ->
  0 <= result < 2 ^ shift ->
  js_ior result (js_shl (js_and byte 31) shift) =
  Z.lor result (Z.shiftl (Z.land byte 31) shift)
  /\ 0 <= Z.lor result (Z.shiftl (Z.land byte 31) shift) < 2 ^ (shift + 5).
Proof.
  intros Hb Hs Hr.
  pose proof (land_31 byte) as H31.
  pose proof (shiftl_bound (Z.land byte 31) shift H31 ltac:(lia)) as Hsh.
  pose proof (pow2_le_30 (shift + 5) ltac:(lia)) as Hp.
  assert (Hpow : 2 ^ shift <= 2 ^ (shift + 5)) by (apply Z.pow_le_mono_r; lia).
  change (2 ^ 30) with 1073741824 in Hp.
  assert (Hshift : Z.land shift 31 = shift).
  { change 31 with (Z.ones 5). rewrite Z.land_ones by lia.
    change (2 ^ 5) with 32. apply Z.mod_small. lia. }
  unfold js_ior, js_shl, js_and.
  change (to_int32 31) with 31.
  rewrite (to_int32_small byte) by (change (2 ^ 31) with 2147483648; lia).
  rewrite (to_int32_small (Z.land byte 31)) by (change (2 ^ 31) with 2147483648; lia).
  rewrite Hshift.
  rewrite (to_int32_small (Z.shiftl (Z.land byte 31) shift))
    by (change (2 ^ 31) with 2147483648; lia).
  rewrite (to_int32_small (Z.shiftl (Z.land byte 31) shift))
    by (change (2 ^ 31) with 2147483648; lia).
  rewrite (to_int32_small result) by (change (2 ^ 31) with 2147483648; lia).
  split; [reflexivity|].
  apply lor_bound; lia.
Qed.

(** The sign extension of the source is that of the specification. *)
Lemma change_of_small (r : Z) :
  0 <= r < 2 ^ 30 -> change_of r = spec_sign_extend r.
Proof.
  change (2 ^ 30) with 1073741824. intros Hr.
  unfold change_of, spec_sign_extend, js_and, js_not, js_sar.
  change (to_int32 1) with 1. change (Z.land 1 31) with 1.
  rewrite (to_int32_small r) by (change (2 ^ 31) with 2147483648; lia).
  assert (Hhalf : 0 <= Z.shiftr r 1 < 1073741824).
  { rewrite Z.shiftr_div_pow2 by lia. change (2 ^ 1) with 2.
    Z.div_mod_to_equations; lia. }
  rewrite (to_int32_small (Z.shiftr r 1)) by (change (2 ^ 31) with 2147483648; lia).
  rewrite Z.bit0_odd.
  change 1 with (Z.ones 1) at 1. rewrite Z.land_ones by lia. change (2 ^ 1) with 2.
  rewrite Zmod_odd. destruct (Z.odd r); reflexivity.
Qed.

(** ** One chunk *)

(** Inside a well-formed encoding, after [seen] characters of the current
    chunk: the loop of the source and the chunk decoder of the specification
    return the same value, below [2^30], and stop after the same character,
    the one chunk end they consume. *)
Lemma chunk_refines (str : list Z) :
  forall (seen : nat) (second : bool) (shift result : Z),
    well_formed_from str seen second = true ->
    str <> [] ->
    (seen <= 5)%nat ->
    shift = 5 * Z.of_nat seen ->
    0 <= result < 2 ^ shift ->
    exists (r : Z) (rest : list Z),
      chunk str shift result = (r, rest)
      /\ spec_chunk str shift result = Some (r, rest)
      /\ 0 <= r < 2 ^ 30
      /\ well_formed_from rest 0 (negb second) = true
      /\ (List.length rest < List.length str)%nat
      /\ chunk_ends str = S (chunk_ends rest).
Proof.
  induction str as [|c rest IH]; intros seen second shift result Hwf Hne Hseen Hshift Hres;
    [contradiction|].
  simpl in Hwf. cbv beta iota zeta delta [chunk spec_chunk]. fold chunk. fold spec_chunk.
  unfold chunk_ends. cbn [filter].
  destruct ((95 <=? c) && (c <=? 126)) eqn:Hcont.
  - (* a continuation character *)
    apply andb_true_iff in Hcont. destruct Hcont as [Hlo Hhi].
    apply Z.leb_le in Hlo, Hhi.
    apply andb_true_iff in Hwf. destruct Hwf as [Hlt Hwf].
    apply Nat.ltb_lt in Hlt.
    destruct (accumulate_small (c - 63) shift result ltac:(lia) ltac:(lia) Hres)
      as [Heq Hbound].
    rewrite Heq, (testbit_5 (c - 63)) by lia.
    replace (c - 63 >=? 32) with true by (symmetry; apply Z.geb_le; lia).
    replace (c <? 95) with false by (symmetry; apply Z.ltb_ge; lia).
    assert (Hrest : rest <> []).
    { intros ->. simpl in Hwf. discriminate Hwf. }
    destruct (IH (S seen) second (shift + 5) _ Hwf Hrest ltac:(lia) ltac:(lia) Hbound)
      as (r & rest' & Hc & Hsc & Hr & Hwf' & Hlen & Hends).
    exists r, rest'. fold (chunk_ends rest). simpl List.length.
    repeat split; try assumption; try lia.
  - (* the last character of the chunk *)
    destruct ((63 <=? c) && (c <=? 94)) eqn:Hterm; [|discriminate Hwf].
    apply andb_true_iff in Hterm. destruct Hterm as [Hlo Hhi].
    apply Z.leb_le in Hlo, Hhi.
    destruct (accumulate_small (c - 63) shift result ltac:(lia) ltac:(lia) Hres)
      as [Heq Hbound].
    rewrite Heq, (testbit_5 (c - 63)) by lia.
    replace (c - 63 >=? 32) with false by (symmetry; rewrite Z.geb_leb; apply Z.leb_gt; lia).
    replace (c <? 95) with true by (symmetry; apply Z.ltb_lt; lia).
    eexists _, rest. fold (chunk_ends rest). simpl List.length.
    split; [reflexivity|]. split; [reflexivity|].
    split.
    { destruct (pow2_le_30 (shift + 5) ltac:(lia)). lia. }
    split; [exact Hwf|]. split; [lia|reflexivity].
Qed.

(** ** The outer loop *)

Lemma decode_loop_refines (fuel : nat) :
  forall (str : list Z) (lat lng precision : Z) (coordinates : list Coordinate),
    well_formed_from str 0 false = true ->
    (List.length str <= fuel)%nat ->
    exists points : list Coordinate,
      spec_points fuel str lat lng precision = Some points
      /\ decode_loop fuel str lat lng (Qpower 10 precision) coordinates =
         Some (coordinates ++ points)
      /\ (2 * List.length points)%nat = chunk_ends str.
Proof.
  induction fuel as [|fuel IH]; intros str lat lng precision coordinates Hwf Hlen.
  { destruct str; [|simpl in Hlen; lia].
    exists []. simpl. rewrite app_nil_r. auto. }
  destruct str as [|c rest].
  { exists []. simpl. rewrite app_nil_r. auto. }
  assert (Hne : c :: rest <> []) by discriminate.
  destruct (chunk_refines (c :: rest) 0 false 0 0 Hwf Hne ltac:(lia) ltac:(lia)
                          ltac:(simpl; lia))
    as (r1 & str1 & Hc1 & Hs1 & Hr1 & Hwf1 & Hlen1 & Hends1).
  assert (Hne1 : str1 <> []).
  { intros ->. simpl in Hwf1. discriminate Hwf1. }
  destruct (chunk_refines str1 0 true 0 0 Hwf1 Hne1 ltac:(lia) ltac:(lia)
                          ltac:(simpl; lia))
    as (r2 & str2 & Hc2 & Hs2 & Hr2 & Hwf2 & Hlen2 & Hends2).
  simpl negb in Hwf2.
  cbv beta iota delta [decode_loop spec_points]. fold decode_loop. fold spec_points.
  rewrite Hc1, Hs1, Hc2, Hs2.
  rewrite (change_of_small r1 Hr1), (change_of_small r2 Hr2).
  simpl in Hlen, Hlen1.
  destruct (IH str2 (lat + spec_sign_extend r1) (lng + spec_sign_extend r2) precision
               (coordinates ++
                [(inject_Z (lat + spec_sign_extend r1) / Qpower 10 precision,
                  inject_Z (lng + spec_sign_extend r2) / Qpower 10 precision)%Q])
               Hwf2 ltac:(lia))
    as (points & Hsp & Hdl & Hcount).
  cbv zeta. rewrite Hsp, Hdl.
  eexists. split; [reflexivity|].
  split; [rewrite <- app_assoc; reflexivity|].
  rewrite Hends1, Hends2, <- Hcount. simpl. lia.
Qed.

(** ** The decoder returns on every string *)

Lemma chunk_length (str : list Z) :
  forall shift result : Z,
    (List.length (snd (chunk str shift result)) <= Nat.pred (List.length str))%nat.
Proof.
  induction str as [|c rest IH]; intros shift result; simpl; [lia|].
  destruct (c - 63 >=? 32); simpl; [|lia].
  specialize (IH (shift + 5) (js_ior result (js_shl (js_and (c - 63) 31) shift))). lia.
Qed.

Lemma decode_loop_total (fuel : nat) :
  forall (str : list Z) (lat lng : Z) (factor : Q) (coordinates : list Coordinate),
    (List.length str <= fuel)%nat ->
    exists result, decode_loop fuel str lat lng factor coordinates = Some result.
Proof.
  induction fuel as [|fuel IH]; intros str lat lng factor coordinates Hlen.
  { destruct str; [simpl; eauto|simpl in Hlen; lia]. }
  destruct str as [|c rest]; [simpl; eauto|].
  cbv beta iota delta [decode_loop]. fold decode_loop.
  pose proof (chunk_length (c :: rest) 0 0) as H1.
  destruct (chunk (c :: rest) 0 0) as [r1 str1].
  pose proof (chunk_length str1 0 0) as H2.
  destruct (chunk str1 0 0) as [r2 str2].
  simpl in H1, H2, Hlen. apply IH. lia.
Qed.

(** Outside the well-formed encodings the source still returns, where the
    specification leaves the result open: a string that ends after one
    chunk gives a point whose longitude has not moved. *)
Example truncated_input :
  option_map (@List.length Coordinate) (decodePolyline "_p~iF" None) = Some 1%nat
  /\ spec_decode "_p~iF" 5 = None.
Proof. split; vm_compute; reflexivity. Qed.

Lemma decodePolyline_total (str : string) (precision : option Z) :
  exists coords, decodePolyline str precision = Some coords.
Proof.
  apply decode_loop_total. apply Nat.le_refl.
Qed.



End PolylineDecoder.

(* ================================================================== *)
(** * The heatmap grid as a histogram of the deposited points *)
(* ================================================================== *)

Module RouteAggregator.

Import Polyline Heatmap.

Local Open Scope Z_scope.

(** ** [freq.get] and [freq.set] *)

Lemma key_eqb_eq (a b : Key) : key_eqb a b = true <-> a = b.
Proof.
  destruct a as [a1 a2], b as [b1 b2]. unfold key_eqb. simpl.
  rewrite andb_true_iff, !Z.eqb_eq. split.
  - intros [-> ->]. reflexivity.
  - intros H. inversion H. auto.
Qed.

Lemma key_eqb_refl (a : Key) : key_eqb a a = true.
Proof. apply key_eqb_eq. reflexivity. Qed.

Lemma key_eqb_sym (a b : Key) : key_eqb a b = key_eqb b a.
Proof.
  destruct (key_eqb a b) eqn:H1, (key_eqb b a) eqn:H2; try reflexivity.
  - apply key_eqb_eq in H1. subst. rewrite key_eqb_refl in H2. discriminate.
  - apply key_eqb_eq in H2. subst. rewrite key_eqb_refl in H1. discriminate.
Qed.

Lemma weight_at_set (key k : Key) (v : GridCell) (freq : Grid) :
  weight_at key (grid_set k v freq) =
  if key_eqb key k then w v else weight_at key freq.
Proof.
  unfold weight_at.
  induction freq as [|[k' v'] rest IH]; simpl.
  - destruct (key_eqb key k); reflexivity.
  - destruct (key_eqb k k') eqn:Hk; simpl.
    + apply key_eqb_eq in Hk. subst k'.
      destruct (key_eqb key k); reflexivity.
    + destruct (key_eqb key k') eqn:Hk'; [|exact IH].
      apply key_eqb_eq in Hk'. subst k'.
      rewrite key_eqb_sym, Hk. reflexivity.
Qed.

Lemma total_weight_set (k : Key) (v : GridCell) (freq : Grid) :
  total_weight (grid_set k v freq) = total_weight freq - weight_at k freq + w v.
Proof.
  unfold weight_at.
  induction freq as [|[k' v'] rest IH]; simpl; [lia|].
  destruct (key_eqb k k'); simpl; [lia|]. rewrite IH. lia.
Qed.

Lemma keys_set (k : Key) (v : GridCell) (freq : Grid) :
  map fst (grid_set k v freq) =
  match grid_get k freq with
  | Some _ => map fst freq
  | None => map fst freq ++ [k]
  end.
Proof.
  induction freq as [|[k' v'] rest IH]; simpl; [reflexivity|].
  destruct (key_eqb k k'); simpl; [reflexivity|].
  rewrite IH. destruct (grid_get k rest); reflexivity.
Qed.

Lemma grid_get_none (k : Key) (freq : Grid) :
  grid_get k freq = None -> ~ In k (map fst freq).
Proof.
  induction freq as [|[k' v'] rest IH]; simpl; [tauto|].
  destruct (key_eqb k k') eqn:Hk; [discriminate|].
  intros Hn [H|H].
  - subst k'. rewrite key_eqb_refl in Hk. discriminate.
  - exact (IH Hn H).
Qed.

Lemma forall_set (P : Key * GridCell -> Prop) (k : Key) (v : GridCell) (freq : Grid) :
  Forall P freq -> P (k, v) -> Forall P (grid_set k v freq).
Proof.
  intros Hall Hv.
  induction Hall as [|[k' v'] rest Hx Hrest IH]; simpl.
  - constructor; [exact Hv|constructor].
  - destruct (key_eqb k k') eqn:Hk.
    + apply key_eqb_eq in Hk. subst k'. constructor; assumption.
    + constructor; assumption.
Qed.

Lemma grid_get_in (k : Key) (v : GridCell) (freq : Grid) :
  grid_get k freq = Some v -> In (k, v) freq.
Proof.
  induction freq as [|[k' v'] rest IH]; simpl; [discriminate|].
  destruct (key_eqb k k') eqn:Hk.
  - apply key_eqb_eq in Hk. subst k'. intros H. inversion H. left. reflexivity.
  - intros H. right. exact (IH H).
Qed.

(** ** [pushPoint] *)

Lemma weight_at_nonneg (key : Key) (freq : Grid) :
  Forall (fun kv => 1 <= w (snd kv)) freq -> 0 <= weight_at key freq.
Proof.
  intros Hall. unfold weight_at.
  destruct (grid_get key freq) as [v|] eqn:Hg; [|lia].
  apply grid_get_in in Hg. rewrite Forall_forall in Hall.
  specialize (Hall _ Hg). simpl in Hall. lia.
Qed.

(** [pushPoint] stores at the key of the point a cell one heavier than the
    weight found there. *)
Lemma pushPoint_set (freq : Grid) (p : Coordinate) :
  exists v : GridCell,
    pushPoint freq p = grid_set (key_of (fst p) (snd p)) v freq
    /\ w v = weight_at (key_of (fst p) (snd p)) freq + 1
    /\ (Forall cell_at_key freq -> cell_at_key (key_of (fst p) (snd p), v)).
Proof.
  unfold pushPoint, weight_at.
  destruct (grid_get (key_of (fst p) (snd p)) freq) as [v0|] eqn:Hg.
  - eexists. split; [reflexivity|]. split; [reflexivity|].
    intros Hall. apply grid_get_in in Hg. rewrite Forall_forall in Hall.
    exact (Hall _ Hg).
  - eexists. split; [reflexivity|]. split; [reflexivity|].
    intros _. split; reflexivity.
Qed.

Lemma weight_at_push (key : Key) (freq : Grid) (p : Coordinate) :
  weight_at key (pushPoint freq p) =
  weight_at key freq + (if key_eqb (key_of (fst p) (snd p)) key then 1 else 0).
Proof.
  destruct (pushPoint_set freq p) as (v & -> & Hw & _).
  rewrite weight_at_set, Hw, (key_eqb_sym key).
  destruct (key_eqb (key_of (fst p) (snd p)) key) eqn:Hk; [|lia].
  apply key_eqb_eq in Hk. subst key. reflexivity.
Qed.

Lemma total_weight_push (freq : Grid) (p : Coordinate) :
  total_weight (pushPoint freq p) = total_weight freq + 1.
Proof.
  destruct (pushPoint_set freq p) as (v & -> & Hw & _).
  rewrite total_weight_set, Hw. lia.
Qed.

Lemma grid_ok_push (freq : Grid) (p : Coordinate) :
  grid_ok freq -> grid_ok (pushPoint freq p).
Proof.
  intros (Hnd & Hw & Hat).
  destruct (pushPoint_set freq p) as (v & -> & Hv & Hcell).
  pose proof (weight_at_nonneg (key_of (fst p) (snd p)) freq Hw) as Hnn.
  split; [|split].
  - rewrite keys_set.
    destruct (grid_get (key_of (fst p) (snd p)) freq) eqn:Hg; [exact Hnd|].
    apply grid_get_none in Hg.
    apply NoDup_app; [exact Hnd|constructor; [tauto|constructor]|].
    intros k Hin [<-|[]]. contradiction.
  - apply forall_set; [exact Hw|]. simpl. lia.
  - apply forall_set; [exact Hat|]. exact (Hcell Hat).
Qed.

(** ** The loops are folds of [pushPoint] over the deposited points *)

Section Folds.

Variable key : Key.

Lemma fold_push_weight (points : list Coordinate) :
  forall freq : Grid,
    weight_at key (fold_left pushPoint points freq) = weight_at key freq + hits key points.
Proof.
  unfold hits.
  induction points as [|p rest IH]; intros freq; simpl; [lia|].
  rewrite IH, weight_at_push.
  destruct (key_eqb (key_of (fst p) (snd p)) key); simpl List.length; lia.
Qed.

End Folds.

Lemma fold_push_total (points : list Coordinate) :
  forall freq : Grid,
    total_weight (fold_left pushPoint points freq) =
    total_weight freq + Z.of_nat (List.length points).
Proof.
  induction points as [|p rest IH]; intros freq; simpl List.length; simpl fold_left; [lia|].
  rewrite IH, total_weight_push. lia.
Qed.

Lemma fold_push_ok (points : list Coordinate) :
  forall freq : Grid, grid_ok freq -> grid_ok (fold_left pushPoint points freq).
Proof.
  induction points as [|p rest IH]; intros freq Hok; simpl; [exact Hok|].
  apply IH, grid_ok_push, Hok.
Qed.

Lemma densify_fold (freq : Grid) (c n : Coordinate) :
  densify freq c n =
  fold_left pushPoint
            (map (interpolate c n (steps_between c n)) (step_indices (steps_between c n)))
            freq.
Proof.
  unfold densify. cbv zeta. generalize (step_indices (steps_between c n)) as l.
  intros l. revert freq. induction l as [|x l IH]; intros freq; simpl; [reflexivity|].
  apply IH.
Qed.

Lemma walk_fold (coords : list Coordinate) :
  forall freq : Grid, walk freq coords = fold_left pushPoint (deposited coords) freq.
Proof.
  induction coords as [|c rest IH]; intros freq; [reflexivity|].
  destruct rest as [|n rest']; [reflexivity|].
  change (walk freq (c :: n :: rest'))
    with (walk (densify (pushPoint freq c) c n) (n :: rest')).
  rewrite IH, densify_fold.
  change (deposited (c :: n :: rest'))
    with (c :: map (interpolate c n (steps_between c n))
                   (step_indices (steps_between c n)) ++ deposited (n :: rest')).
  simpl fold_left at 3. rewrite fold_left_app. reflexivity.
Qed.

Lemma aggregate_fold (routes : list (list Coordinate)) :
  forall freq : Grid,
    fold_left walk routes freq = fold_left pushPoint (all_deposited routes) freq.
Proof.
  unfold all_deposited.
  induction routes as [|coords rest IH]; intros freq; simpl; [reflexivity|].
  rewrite IH, walk_fold, fold_left_app. reflexivity.
Qed.

(** ** Counting the deposited points *)

Lemma steps_between_nonneg (c n : Coordinate) : 0 <= steps_between c n.
Proof. unfold steps_between. cbv zeta. apply Z.le_max_l. Qed.

Lemma step_indices_length (steps : Z) :
  0 <= steps -> Z.of_nat (List.length (step_indices steps)) = steps.
Proof.
  intros H. unfold step_indices. rewrite length_map, length_seq. lia.
Qed.

Lemma deposited_length (coords : list Coordinate) :
  Z.of_nat (List.length (deposited coords)) =
  Z.of_nat (List.length coords) + interpolated_count coords.
Proof.
  induction coords as [|c rest IH]; [reflexivity|].
  destruct rest as [|n rest']; [reflexivity|].
  change (deposited (c :: n :: rest'))
    with (c :: map (interpolate c n (steps_between c n))
                   (step_indices (steps_between c n)) ++ deposited (n :: rest')).
  change (interpolated_count (c :: n :: rest'))
    with (steps_between c n + interpolated_count (n :: rest')).
  cbn [List.length]. rewrite length_app, length_map, !Nat2Z.inj_succ, Nat2Z.inj_add.
  rewrite IH, (step_indices_length _ (steps_between_nonneg c n)).
  cbn [List.length]. lia.
Qed.

Lemma interpolated_count_nonneg (coords : list Coordinate) : 0 <= interpolated_count coords.
Proof.
  induction coords as [|c rest IH]; [reflexivity|].
  destruct rest as [|n rest']; [reflexivity|].
  change (interpolated_count (c :: n :: rest'))
    with (steps_between c n + interpolated_count (n :: rest')).
  pose proof (steps_between_nonneg c n). lia.
Qed.

Lemma all_deposited_length (routes : list (list Coordinate)) :
  real_points routes <= Z.of_nat (List.length (all_deposited routes)).
Proof.
  unfold real_points, all_deposited.
  induction routes as [|coords rest IH]; simpl; [lia|].
  rewrite !length_app, !Nat2Z.inj_add, deposited_length.
  pose proof (interpolated_count_nonneg coords). lia.
Qed.

(** ** The number of steps *)

(** [floor_dist d2 unit] is the largest integer [n] with
    [n * unit <= sqrt d2], that is [floor (sqrt d2 / unit)]. *)
Lemma floor_dist_spec (d2 unit : Q) :
  (0 < unit)%Q ->
  (0 <= d2)%Q ->
  0 <= floor_dist d2 unit
  /\ ((inject_Z (floor_dist d2 unit) * unit) * (inject_Z (floor_dist d2 unit) * unit)
      <= d2)%Q
  /\ (d2 < (inject_Z (floor_dist d2 unit + 1) * unit)
           * (inject_Z (floor_dist d2 unit + 1) * unit))%Q.
Proof.
  intros Hu Hd. unfold floor_dist.
  set (x := (d2 / (unit * unit))%Q).
  assert (Huu : (0 < unit * unit)%Q) by (apply Qmult_lt_0_compat; assumption).
  assert (Hne : ~ (unit * unit == 0)%Q).
  { intros H. rewrite H in Huu. apply (Qlt_irrefl 0). exact Huu. }
  assert (Hx : (x * (unit * unit) == d2)%Q).
  { unfold x. rewrite Qmult_comm. apply Qmult_div_r. exact Hne. }
  assert (Hx0 : (0 <= x)%Q).
  { apply (Qmult_le_r 0 x (unit * unit) Huu). rewrite Hx, Qmult_0_l. exact Hd. }
  assert (Hm : 0 <= Qfloor x).
  { apply Qfloor_resp_le in Hx0. exact Hx0. }
  pose proof (Z.sqrt_spec (Qfloor x) Hm) as Hs. cbv zeta in Hs.
  set (n := Z.sqrt (Qfloor x)) in *.
  split; [apply Z.sqrt_nonneg|]. split.
  - assert (Hle : (inject_Z (n * n) <= x)%Q).
    { apply Qle_trans with (inject_Z (Qfloor x)); [|apply Qfloor_le].
      rewrite <- Zle_Qle. lia. }
    rewrite <- Hx.
    setoid_replace (inject_Z n * unit * (inject_Z n * unit))%Q
      with (inject_Z (n * n) * (unit * unit))%Q
      by (rewrite inject_Z_mult; ring).
    apply Qmult_le_compat_r; [exact Hle|apply Qlt_le_weak; exact Huu].
  - assert (Hlt : (x < inject_Z ((n + 1) * (n + 1)))%Q).
    { apply Qlt_le_trans with (inject_Z (Qfloor x + 1)); [apply Qlt_floor|].
      rewrite <- Zle_Qle. lia. }
    rewrite <- Hx.
    setoid_replace (inject_Z (n + 1) * unit * (inject_Z (n + 1) * unit))%Q
      with (inject_Z ((n + 1) * (n + 1)) * (unit * unit))%Q
      by (rewrite (inject_Z_mult (n + 1) (n + 1)); ring).
    apply Qmult_lt_compat_r; assumption.
Qed.

Lemma squares_nonneg (a b : Q) : (0 <= a * a + b * b)%Q.
Proof.
  assert (H : forall t : Q, (0 <= t * t)%Q).
  { intros t. destruct (Qlt_le_dec t 0) as [Hneg|Hpos].
    - setoid_replace (t * t)%Q with ((- t) * (- t))%Q by ring.
      apply Qmult_le_0_compat; apply Qlt_le_weak;
        apply (Qplus_lt_l _ _ t); ring_simplify; exact Hneg.
    - apply Qmult_le_0_compat; assumption. }
  setoid_replace 0%Q with (0 + 0)%Q by ring.
  apply Qplus_le_compat; apply H.
Qed.

(** A route of three points: the first and the last fall in one cell, and
    the first segment gets two interpolated points. *)
Example small_grid :
  map (fun kv => (fst kv, w (snd kv)))
      (aggregate [[(0, 0); (0.001, 0); (0.00004, 0)]%Q]) =
  [((0, 0), 2); ((3, 0), 1); ((7, 0), 1); ((10, 0), 1); ((5, 0), 1)].
Proof. vm_compute. reflexivity. Qed.


End RouteAggregator.

(* ================================================================== *)
(** * The routes around the session: [/auth], [/oauth/callback],
      [/logout] and the guard of [/api/activities] *)
(* ================================================================== *)

Module SessionRoutes.

Import Server.

Local Open Scope string_scope.
Local Open Scope Z_scope.
Local Open Scope list_scope.

Lemma auth_run (E : Env) (s : state) (sess : Session) :
  session s = Some sess ->
  auth E s =
  (Return (Redirect (authorize_location E (random_hex E (history s)))),
   mkState (Some (mkSession (Some (random_hex E (history s))) (strava sess)))
           (history s ++ [EvRandom (random_hex E (history s))])).
Proof.
  intros Hs. unfold auth, bind at 1, random_state.
  unfold bind at 1, get_session. simpl. rewrite Hs.
  unfold bind, put_session, ret. reflexivity.
Qed.

Lemma exchanged_record_value (token : value) :
  nullish token = false -> exchanged_record token = Return (record_of_token token).
Proof.
  intros H. unfold exchanged_record, get. rewrite H. reflexivity.
Qed.

Lemma exchanged_record_nullish (token : value) :
  nullish token = true -> exists e, exchanged_record token = Throw e.
Proof.
  intros H. unfold exchanged_record, get. rewrite H. simpl. eauto.
Qed.

Lemma state_differs_other (other : value) (st : string) :
  other <> VStr st -> state_differs other (Some st) = true.
Proof.
  intros H. destruct other; simpl; try reflexivity.
  apply negb_true_iff. apply String.eqb_neq. intros ->. apply H. reflexivity.
Qed.

(** X1. [/api/activities] answers 401 exactly when the session is not
    authenticated, and then it touches nothing: no call to the provider, no
    reading of the clock, no change of the session. *)
Theorem unauthenticated_gets_401 (E : Env) (after before : value) (s : state) :
  (fst (api_activities E after before s) = Return (Some not_authenticated)
   <-> isAuthed s = false)
  /\ (isAuthed s = false ->
      api_activities E after before s = (Return (Some not_authenticated), s)).
Proof.
  destruct (ActivityFetcher.api_activities_cases E after before s)
    as [[Hauth Hrun] | [[Hauth (evs & e & sn & Hrun & _)]
                       | [Hauth (evs & sn & Hrun & _)]]];
    rewrite Hrun, Hauth; simpl fst.
  - split; [tauto|reflexivity].
  - split; [|discriminate]. split; [|discriminate].
    unfold server_error, not_authenticated. intros H. inversion H.
  - split; [|discriminate]. split; [|discriminate].
    unfold activities_found, not_authenticated. intros H. inversion H.
Qed.

(** X2. [/logout] drops the whole session, token and stored state alike,
    and redirects to the root.  On what it leaves, and on the empty session
    of the next request, [/api/activities] answers 401 without calling the
    provider, [refreshIfNeeded] does nothing, and a callback that still
    carries a state drawn before the logout is refused with 400. *)
Theorem logout_ends_authentication (E : Env) (after before : value) (s : state) :
  logout s = (Return (Redirect Root), mkState None (history s))
  /\ isAuthed (snd (logout s)) = false
  /\ api_activities E after before (snd (logout s)) =
     (Return (Some not_authenticated), snd (logout s))
  /\ refreshIfNeeded E (snd (logout s)) = (Return tt, snd (logout s))
  /\ (forall h : list event,
         api_activities E after before (mkState (Some empty_session) h) =
         (Return (Some not_authenticated), mkState (Some empty_session) h)
         /\ refreshIfNeeded E (mkState (Some empty_session) h) =
            (Return tt, mkState (Some empty_session) h)
         /\ (forall (code : value) (old : string),
                truthy code = true ->
                oauth_callback E code (VStr old) (mkState (Some empty_session) h) =
                (Return (SendText 400 "Invalid state"),
                 mkState (Some empty_session) h))).
Proof.
  assert (Hrun : logout s = (Return (Redirect Root), mkState None (history s)))
    by reflexivity.
  rewrite Hrun. simpl snd.
  split; [reflexivity|]. split; [reflexivity|].
  split; [reflexivity|]. split; [reflexivity|].
  intros h. split; [reflexivity|]. split; [reflexivity|].
  intros code old Hc.
  apply (OAuthState.callback_invalid_state E code (VStr old) _ empty_session Hc);
    reflexivity.
Qed.

(** X3. The callback changes the session only by installing the record
    read from a successful token exchange: whenever the session after the
    callback differs from the one before, the code was present, the state
    matched, the token endpoint answered with success and JSON, the new
    record is made of the four fields of that JSON (the stored state is
    kept) and the answer is the redirect to the root.  In every other case
    the session is the same and the answer is not that redirect. *)
Theorem callback_installs_only_exchanged_record
        (E : Env) (s s' : state) (code st : value) (resp : outcome http_response) :
  oauth_callback E code st s = (resp, s') ->
  (session s' = session s /\ resp <> Return (Redirect Root))
  \/ (exists (sess : Session) (r : response) (token : value),
         session s = Some sess
         /\ truthy code = true
         /\ state_differs st (oauth_state sess) = false
         /\ remote E (history s) (exchange_request E code) = Resolved r
         /\ ok r = true
         /\ json r = Some token
         /\ nullish token = false
         /\ resp = Return (Redirect Root)
         /\ s' = mkState (Some (mkSession (oauth_state sess) (Some (record_of_token token))))
                         (history s ++ [EvFetch (exchange_request E code) (Resolved r)])).
Proof.
  intros Hrun.
  destruct (truthy code) eqn:Hc.
  2:{ rewrite (OAuthState.callback_missing_code E code st s Hc) in Hrun.
      inversion Hrun. left. split; [reflexivity|discriminate]. }
  destruct (session s) as [sess|] eqn:Hs.
  2:{ destruct (OAuthState.callback_no_session E code st s Hc Hs) as [e He].
      rewrite He in Hrun. inversion Hrun. left. split; [reflexivity|discriminate]. }
  destruct (state_differs st (oauth_state sess)) eqn:Hd.
  { rewrite (OAuthState.callback_invalid_state E code st s sess Hc Hs Hd) in Hrun.
    inversion Hrun. subst. left. split; [exact Hs|discriminate]. }
  rewrite (OAuthState.callback_accepted E code st s sess Hc Hs Hd) in Hrun.
  unfold exchange_outcome in Hrun.
  destruct (remote E (history s) (exchange_request E code)) as [m|r] eqn:Hr.
  { inversion Hrun. left. split; [reflexivity|discriminate]. }
  destruct (ok r) eqn:Hok; simpl in Hrun.
  2:{ inversion Hrun. left. split; [reflexivity|discriminate]. }
  destruct (json r) as [token|] eqn:Hj.
  2:{ inversion Hrun. left. split; [reflexivity|discriminate]. }
  destruct (nullish token) eqn:Hn.
  - destruct (exchanged_record_nullish token Hn) as [e He]. rewrite He in Hrun.
    inversion Hrun. left. split; [reflexivity|discriminate].
  - rewrite (exchanged_record_value token Hn) in Hrun. inversion Hrun.
    right. exists sess, r, token. auto 12.
Qed.

Lemma callback_installs_only_exchanged_record_witness :
  (session (mkState (Some (mkSession (Some "9f86d081884c7d65")
                             (Some (record_of_token fresh_token_json))))
                    [EvFetch (exchange_request provider_up (VStr "c0de"))
                             (json_reply fresh_token_json)])
   = session awaiting_callback
   /\ Return (Redirect Root) <> Return (Redirect Root))
  \/ (exists (sess : Session) (r : response) (token : value),
         session awaiting_callback = Some sess
         /\ truthy (VStr "c0de") = true
         /\ state_differs (VStr "9f86d081884c7d65") (oauth_state sess) = false
         /\ remote provider_up (history awaiting_callback)
                   (exchange_request provider_up (VStr "c0de")) = Resolved r
         /\ ok r = true
         /\ json r = Some token
         /\ nullish token = false
         /\ Return (Redirect Root) = Return (Redirect Root)
         /\ mkState (Some (mkSession (Some "9f86d081884c7d65")
                             (Some (record_of_token fresh_token_json))))
                    [EvFetch (exchange_request provider_up (VStr "c0de"))
                             (json_reply fresh_token_json)]
            = mkState (Some (mkSession (oauth_state sess) (Some (record_of_token token))))
                      (history awaiting_callback
                       ++ [EvFetch (exchange_request provider_up (VStr "c0de"))
                                   (Resolved r)])).
Proof.
  exact (callback_installs_only_exchanged_record
           provider_up awaiting_callback _ (VStr "c0de") (VStr "9f86d081884c7d65")
           _ eq_refl).
Defined.

(** X4. When the token endpoint answers the exchange with a status that is
    not a success, the callback answers 500, logs the error
    [Token exchange failed: <status>] and leaves the session as it was: no
    record is installed and one that was there stays. *)
Theorem callback_exchange_failure_keeps_session
        (E : Env) (s : state) (sess : Session) (code st : value) (r : response) :
  truthy code = true ->
  session s = Some sess ->
  state_differs st (oauth_state sess) = false ->
  remote E (history s) (exchange_request E code) = Resolved r ->
  ok r = false ->
  oauth_callback E code st s =
  (Return oauth_failure,
   mkState (Some sess)
           (history s ++
            [EvFetch (exchange_request E code) (Resolved r);
             EvLogError (Error ("Token exchange failed: " ++ string_of_Z (status r)))])).
Proof.
  intros Hc Hs Hd Hr Hok.
  rewrite (OAuthState.callback_accepted E code st s sess Hc Hs Hd), Hr.
  unfold exchange_outcome. rewrite Hok. reflexivity.
Qed.

Lemma callback_exchange_failure_keeps_session_witness :
  oauth_callback provider_rejecting (VStr "c0de") (VStr "9f86d081884c7d65")
                 awaiting_callback =
  (Return oauth_failure,
   mkState (session awaiting_callback)
           [EvFetch (exchange_request provider_rejecting (VStr "c0de"))
                    (error_reply 401 "Authorization Error");
            EvLogError (Error "Token exchange failed: 401")]).
Proof.
  exact (callback_exchange_failure_keeps_session
           provider_rejecting awaiting_callback
           (mkSession (Some "9f86d081884c7d65") None)
           (VStr "c0de") (VStr "9f86d081884c7d65")
           (mkResponse 401 "Authorization Error" None)
           eq_refl eq_refl eq_refl eq_refl eq_refl).
Defined.

(** X5. [/auth] followed by the callback: the state put in the redirect
    URL is the one stored, a record already in the session is kept, a
    callback that brings that state back goes through to the token
    endpoint, and a callback with any other [state] value (or none) is
    answered 400 with nothing changed. *)
Theorem auth_callback_round_trip
        (E : Env) (s : state) (sess : Session) (code : value) :
  session s = Some sess ->
  truthy code = true ->
  fst (auth E s) = Return (Redirect (authorize_location E (random_hex E (history s))))
  /\ session (snd (auth E s)) =
     Some (mkSession (Some (random_hex E (history s))) (strava sess))
  /\ isAuthed (snd (auth E s)) = isAuthed s
  /\ token_calls (events_since (snd (auth E s))
                    (snd (oauth_callback E code (VStr (random_hex E (history s)))
                            (snd (auth E s))))) = 1%nat
  /\ (forall other : value,
         other <> VStr (random_hex E (history s)) ->
         oauth_callback E code other (snd (auth E s)) =
         (Return (SendText 400 "Invalid state"), snd (auth E s))).
Proof.
  intros Hs Hc. rewrite (auth_run E s sess Hs). simpl fst. simpl snd.
  split; [reflexivity|]. split; [reflexivity|].
  split; [unfold isAuthed; simpl; rewrite Hs; reflexivity|].
  split.
  - erewrite OAuthState.callback_accepted;
      [|exact Hc|reflexivity|simpl; rewrite String.eqb_refl; reflexivity].
    destruct (exchange_outcome _); simpl;
      (erewrite TokenLifecycle.events_since_app; [|simpl; reflexivity]); reflexivity.
  - intros other Hother.
    eapply OAuthState.callback_invalid_state; [exact Hc|reflexivity|].
    simpl. apply state_differs_other. exact Hother.
Qed.

Lemma auth_callback_round_trip_witness :
  oauth_callback provider_up (VStr "c0de") (VStr "forged") (snd (auth provider_up anonymous))
  = (Return (SendText 400 "Invalid state"), snd (auth provider_up anonymous)).
Proof.
  refine (proj2 (proj2 (proj2 (proj2
            (auth_callback_round_trip provider_up anonymous empty_session (VStr "c0de")
               eq_refl eq_refl)))) (VStr "forged") _).
  intros H. discriminate H.
Defined.

(** X6. A second [/auth] supersedes the first: once it has stored a
    different state, a callback with the state of the first redirect is
    answered 400 and changes nothing, while the state of the second one goes
    through. *)
Theorem second_auth_supersedes_first
        (E : Env) (s : state) (sess : Session) (code : value) :
  session s = Some sess ->
  truthy code = true ->
  random_hex E (history s) <> random_hex E (history (snd (auth E s))) ->
  oauth_callback E code (VStr (random_hex E (history s))) (snd (auth E (snd (auth E s)))) =
  (Return (SendText 400 "Invalid state"), snd (auth E (snd (auth E s))))
  /\ token_calls
       (events_since (snd (auth E (snd (auth E s))))
          (snd (oauth_callback E code (VStr (random_hex E (history (snd (auth E s)))))
                  (snd (auth E (snd (auth E s))))))) = 1%nat.
Proof.
  intros Hs Hc Hdiff.
  assert (Hs1 : session (snd (auth E s)) =
                Some (mkSession (Some (random_hex E (history s))) (strava sess))).
  { rewrite (auth_run E s sess Hs). reflexivity. }
  pose proof (auth_callback_round_trip E (snd (auth E s)) _ code Hs1 Hc)
    as (_ & _ & _ & Hback & Hother).
  split; [|exact Hback].
  apply Hother. intros H. inversion H. contradiction.
Qed.

Lemma second_auth_supersedes_first_witness :
  oauth_callback provider_two_states (VStr "c0de") (VStr "9f86d081884c7d65")
                 (snd (auth provider_two_states (snd (auth provider_two_states anonymous))))
  = (Return (SendText 400 "Invalid state"),
     snd (auth provider_two_states (snd (auth provider_two_states anonymous)))).
Proof.
  refine (proj1 (second_auth_supersedes_first provider_two_states anonymous empty_session
                   (VStr "c0de") eq_refl eq_refl _)).
  intros H. discriminate H.
Defined.

(** X7. On a session in which no state was ever stored, a callback that
    brings a code and no [state] parameter passes the state check
    ([undefined !== undefined] is false): the code is sent to the token
    endpoint, and a successful exchange installs its record. *)
Theorem callback_without_state_on_fresh_session
        (E : Env) (h : list event) (code : value) (strava0 : option TokenRecord) :
  truthy code = true ->
  token_calls
    (events_since (mkState (Some (mkSession None strava0)) h)
       (snd (oauth_callback E code VUndefined (mkState (Some (mkSession None strava0)) h))))
  = 1%nat
  /\ (forall (r : response) (token : value),
         remote E h (exchange_request E code) = Resolved r ->
         ok r = true -> json r = Some token -> nullish token = false ->
         oauth_callback E code VUndefined (mkState (Some (mkSession None strava0)) h) =
         (Return (Redirect Root),
          mkState (Some (mkSession None (Some (record_of_token token))))
                  (h ++ [EvFetch (exchange_request E code) (Resolved r)]))).
Proof.
  intros Hc.
  pose proof (OAuthState.callback_accepted E code VUndefined
                (mkState (Some (mkSession None strava0)) h) (mkSession None strava0)
                Hc eq_refl eq_refl) as Hrun.
  simpl in Hrun. split.
  - rewrite Hrun.
    destruct (exchange_outcome _); simpl;
      (erewrite TokenLifecycle.events_since_app; [|simpl; reflexivity]); reflexivity.
  - intros r token Hr Hok Hj Hn. rewrite Hrun, Hr. unfold exchange_outcome.
    rewrite Hok, Hj. simpl. rewrite (exchanged_record_value token Hn). reflexivity.
Qed.

Lemma callback_without_state_on_fresh_session_witness :
  oauth_callback provider_up (VStr "c0de") VUndefined anonymous =
  (Return (Redirect Root),
   mkState (Some (mkSession None (Some (record_of_token fresh_token_json))))
           [EvFetch (exchange_request provider_up (VStr "c0de"))
                    (json_reply fresh_token_json)]).
Proof.
  exact (proj2 (callback_without_state_on_fresh_session provider_up [] (VStr "c0de") None
                  eq_refl)
               (mkResponse 200 "" (Some fresh_token_json)) fresh_token_json
               eq_refl eq_refl eq_refl eq_refl).
Defined.

End SessionRoutes.

(* ================================================================== *)
(** * The freshness check inside a request: what a refresh changes for
      the calls that follow *)
(* ================================================================== *)

Module RefreshEdges.

Import Server.

Local Open Scope string_scope.
Local Open Scope Z_scope.
Local Open Scope list_scope.

(** X8. When the freshness check of [stravaFetch] refreshes the token with
    success, the request that follows carries the new access token, not the
    one the session held when [stravaFetch] was called. *)
Theorem stravaFetch_uses_refreshed_token
        (E : Env) (s : state) (sess : Session) (data : TokenRecord)
        (r : response) (j : value) (path : string) (params : list (string * param)) :
  session s = Some sess ->
  strava sess = Some data ->
  refresh_due E data (now_of E s) = true ->
  remote E (history (after_clock E s)) (refresh_request E data) = Resolved r ->
  ok r = true ->
  json r = Some j ->
  nullish j = false ->
  api_requests (events_since s (snd (stravaFetch E path params s))) =
  [(path, search_of params, prop j "access_token")]
  /\ token_calls (events_since s (snd (stravaFetch E path params s))) = 1%nat.
Proof.
  intros Hs Hd Hdue Hr Hok Hj Hn.
  pose proof (TokenLifecycle.refresh_success_run E s sess data r j Hs Hd Hdue Hr Hok Hj Hn)
    as Hrun.
  erewrite (TokenLifecycle.stravaFetch_run E s _ _ _ path params Hrun);
    [|simpl; reflexivity|reflexivity].
  simpl snd.
  erewrite TokenLifecycle.events_since_app;
    [|unfold after_clock; simpl; rewrite <- !app_assoc; simpl; reflexivity].
  unfold refresh_request. split; reflexivity.
Qed.

Lemma stravaFetch_uses_refreshed_token_witness :
  api_requests (events_since expiring_soon
                  (snd (stravaFetch provider_up "/athlete/activities"
                          [("page", PNum 1)] expiring_soon))) =
  [("/athlete/activities", [("page", PNum 1)], VStr "access-1")].
Proof.
  exact (proj1 (stravaFetch_uses_refreshed_token
                  provider_up expiring_soon
                  (mkSession (Some "9f86d081884c7d65")
                     (Some (token_of "access-0" (VNum 2000000100))))
                  (token_of "access-0" (VNum 2000000100))
                  (mkResponse 200 "" (Some fresh_token_json)) fresh_token_json
                  "/athlete/activities" [("page", PNum 1)]
                  eq_refl eq_refl eq_refl eq_refl eq_refl eq_refl eq_refl)).
Defined.

(** X9. A refresh call that cannot reach the token endpoint is not
    swallowed like a refused one: [refreshIfNeeded] throws, the session stays
    as it was, and [/api/activities] answers 500 with the message of the
    failure without sending any request to the activities API. *)
Theorem refresh_rejection_fails_request
        (E : Env) (s : state) (sess : Session) (data : TokenRecord) (m : string)
        (after before : value) :
  session s = Some sess ->
  strava sess = Some data ->
  truthy (access_token data) = true ->
  refresh_due E data (now_of E s) = true ->
  remote E (history (after_clock E s)) (refresh_request E data) = NetworkError m ->
  refreshIfNeeded E s =
  (Throw (TypeError m),
   mkState (session s)
           (history s ++ [EvNow (clock_ms E (history s));
                          EvFetch (refresh_request E data) (NetworkError m)]))
  /\ api_activities E after before s =
     (Return (Some (server_error (error_text (TypeError m)))),
      mkState (session s)
              (history s ++ [EvNow (clock_ms E (history s));
                             EvFetch (refresh_request E data) (NetworkError m);
                             EvLogError (TypeError m)])).
Proof.
  intros Hs Hd Ha Hdue Hr.
  assert (Hrun : refreshIfNeeded E s =
                 (Throw (TypeError m),
                  mkState (session s)
                          (history s ++ [EvNow (clock_ms E (history s));
                                         EvFetch (refresh_request E data) (NetworkError m)]))).
  { rewrite (TokenLifecycle.refresh_present E s sess data Hs Hd), Hdue.
    unfold bind, fetch. rewrite Hr. unfold after_clock. simpl.
    rewrite <- app_assoc. reflexivity. }
  split; [exact Hrun|].
  unfold api_activities, api_activities_fuel, try_catch, activities_body.
  assert (Hauth : isAuthed s = true) by (unfold isAuthed; rewrite Hs, Hd; exact Ha).
  rewrite Hauth. simpl negb. cbv iota.
  unfold bind at 1. change (Z.to_nat page_cap) with 20%nat.
  rewrite ActivityFetcher.fetch_pages_turn.
  rewrite (TokenLifecycle.stravaFetch_refresh_throws E s _ _ _ _ Hrun).
  unfold bind, emit, ret. simpl. rewrite <- app_assoc. reflexivity.
Qed.

Lemma refresh_rejection_fails_request_witness :
  fst (api_activities provider_unreachable VUndefined VUndefined expiring_soon) =
  Return (Some (server_error "fetch failed")).
Proof.
  exact (f_equal fst
           (proj2 (refresh_rejection_fails_request
                     provider_unreachable expiring_soon
                     (mkSession (Some "9f86d081884c7d65")
                        (Some (token_of "access-0" (VNum 2000000100))))
                     (token_of "access-0" (VNum 2000000100)) "fetch failed"
                     VUndefined VUndefined
                     eq_refl eq_refl eq_refl eq_refl eq_refl))).
Defined.

(** X10. After a successful refresh the session is authenticated exactly
    when the response carried a non-empty access token: a success whose
    JSON has no [access_token] replaces the record all the same and leaves a
    session that [isAuthed] rejects. *)
Theorem refresh_decides_authentication
        (E : Env) (s : state) (sess : Session) (data : TokenRecord)
        (r : response) (j : value) :
  session s = Some sess ->
  strava sess = Some data ->
  refresh_due E data (now_of E s) = true ->
  remote E (history (after_clock E s)) (refresh_request E data) = Resolved r ->
  ok r = true ->
  json r = Some j ->
  nullish j = false ->
  isAuthed (snd (refreshIfNeeded E s)) = truthy (prop j "access_token").
Proof.
  intros Hs Hd Hdue Hr Hok Hj Hn.
  rewrite (TokenLifecycle.refresh_success_run E s sess data r j Hs Hd Hdue Hr Hok Hj Hn).
  reflexivity.
Qed.

Lemma refresh_decides_authentication_witness :
  isAuthed expiring_soon = true
  /\ isAuthed (snd (refreshIfNeeded provider_empty_refresh expiring_soon)) = false.
Proof.
  split; [reflexivity|].
  exact (refresh_decides_authentication
           provider_empty_refresh expiring_soon
           (mkSession (Some "9f86d081884c7d65")
              (Some (token_of "access-0" (VNum 2000000100))))
           (token_of "access-0" (VNum 2000000100))
           (mkResponse 200 "" (Some (VObj []))) (VObj [])
           eq_refl eq_refl eq_refl eq_refl eq_refl eq_refl eq_refl).
Defined.

End RefreshEdges.

(* ================================================================== *)
(** * Every run of [/api/activities]: how many calls, and which *)
(* ================================================================== *)

Module FetchBounds.

Import Server.

Local Open Scope string_scope.
Local Open Scope Z_scope.
Local Open Scope list_scope.

Lemma api_requests_app (a b : list event) :
  api_requests (a ++ b) = api_requests a ++ api_requests b.
Proof.
  induction a as [|ev a IH]; [reflexivity|].
  destruct ev as [ms|hex|[form|path search bearer] res|label detail|e]; simpl;
    rewrite ?IH; reflexivity.
Qed.

Lemma token_calls_app (a b : list event) :
  token_calls (a ++ b) = (token_calls a + token_calls b)%nat.
Proof. unfold token_calls. rewrite filter_app, length_app. reflexivity. Qed.

Lemma clock_reads_app (a b : list event) :
  clock_reads (a ++ b) = (clock_reads a + clock_reads b)%nat.
Proof. unfold clock_reads. rewrite filter_app, length_app. reflexivity. Qed.

(** The events of the freshness check: one reading of the clock, at most
    one call to the token endpoint, no request to the API. *)
Lemma check_events (E : Env) (s : state) (data : TokenRecord) :
  api_requests (EvNow (clock_ms E (history s)) :: refresh_tail E s data) = []
  /\ clock_reads (EvNow (clock_ms E (history s)) :: refresh_tail E s data) = 1%nat
  /\ (token_calls (EvNow (clock_ms E (history s)) :: refresh_tail E s data) <= 1)%nat
  /\ (forall (c : bool) (rest : list event),
         guarded c ((EvNow (clock_ms E (history s)) :: refresh_tail E s data) ++ rest) =
         guarded true rest).
Proof.
  pose proof (ActivityFetcher.refresh_tail_quiet E s data) as Hq.
  destruct (ActivityFetcher.quiet_only (clock_ms E (history s)) _ Hq) as (Ha & _ & _).
  split; [exact Ha|]. split; [|split].
  - change (clock_reads (EvNow (clock_ms E (history s)) :: refresh_tail E s data))
      with (S (clock_reads (refresh_tail E s data))).
    rewrite <- (app_nil_r (refresh_tail E s data)).
    rewrite (ActivityFetcher.clock_reads_quiet _ [] Hq). reflexivity.
  - rewrite TokenLifecycle.token_calls_refresh.
    destruct (refresh_due E data (now_of E s)); lia.
  - intros c rest. simpl. apply ActivityFetcher.guarded_quiet. exact Hq.
Qed.

(** One call of [stravaFetch], with the events of its freshness check. *)
Lemma stravaFetch_trace (E : Env) (s : state) (sess : Session) (data : TokenRecord)
      (path : string) (params : list (string * param)) :
  session s = Some sess ->
  strava sess = Some data ->
  exists (o : outcome value) (s' : state) (sess' : Session) (data' : TokenRecord)
         (tail : list event),
    stravaFetch E path params s = (o, s')
    /\ session s' = Some sess'
    /\ strava sess' = Some data'
    /\ history s' =
       history s ++ (EvNow (clock_ms E (history s)) :: refresh_tail E s data) ++ tail
    /\ ((tail = [] /\ exists e, o = Throw e)
        \/ exists bearer res,
            tail = [EvFetch (ApiRequest path (search_of params) bearer) res]).
Proof.
  intros Hs Hd.
  pose proof (TokenLifecycle.refresh_history E s sess data Hs Hd) as Hh.
  destruct (TokenLifecycle.refresh_keeps_record E s sess data Hs Hd)
    as (sess1 & data1 & Hs1 & Hd1).
  destruct (refreshIfNeeded E s) as [[[]|e] s1] eqn:Hrun; simpl in Hh, Hs1.
  - rewrite (TokenLifecycle.stravaFetch_run E s s1 sess1 data1 path params Hrun Hs1 Hd1).
    eexists _, _, sess1, data1, _.
    split; [reflexivity|]. split; [exact Hs1|]. split; [exact Hd1|].
    split; [simpl; rewrite Hh, <- app_assoc; reflexivity|].
    right. eauto.
  - rewrite (TokenLifecycle.stravaFetch_refresh_throws E s s1 e path params Hrun).
    eexists _, _, sess1, data1, [].
    split; [reflexivity|]. split; [exact Hs1|]. split; [exact Hd1|].
    split; [rewrite app_nil_r; exact Hh|].
    left. eauto.
Qed.

Lemma bounded_trace_step (E : Env) (s : state) (data : TokenRecord)
      (after before : param) (page : Z) (tail rest : list event) (fuel : nat) :
  (tail = [] /\ rest = []
   \/ exists bearer res,
       tail = [EvFetch (ApiRequest "/athlete/activities"
                          (search_of (page_params after before page)) bearer) res]) ->
  bounded_trace after before fuel rest ->
  bounded_trace after before (S fuel)
    (((EvNow (clock_ms E (history s)) :: refresh_tail E s data) ++ tail) ++ rest).
Proof.
  intros Htail (Hn & Hc & Ht & Hnc & Hg & Hshape).
  destruct (check_events E s data) as (Ha & Hclock & Htok & Hguard).
  unfold bounded_trace.
  rewrite <- app_assoc.
  rewrite !api_requests_app, !clock_reads_app, !token_calls_app, Ha, Hclock.
  destruct Htail as [[-> ->] | (bearer & res & ->)].
  - split; [simpl; lia|]. split; [simpl; lia|]. split; [simpl; lia|].
    split; [simpl; lia|]. split.
    + intros c. rewrite Hguard. reflexivity.
    + simpl. constructor.
  - change (api_requests [EvFetch (ApiRequest "/athlete/activities"
                                     (search_of (page_params after before page)) bearer) res])
      with [("/athlete/activities", search_of (page_params after before page), bearer)].
    change (clock_reads [EvFetch (ApiRequest "/athlete/activities"
                                    (search_of (page_params after before page)) bearer) res])
      with 0%nat.
    change (token_calls [EvFetch (ApiRequest "/athlete/activities"
                                    (search_of (page_params after before page)) bearer) res])
      with 0%nat.
    split; [simpl; lia|]. split; [simpl; lia|]. split; [simpl; lia|].
    split; [simpl; lia|]. split.
    + intros c. rewrite Hguard. simpl. apply Hg.
    + simpl. constructor; [|exact Hshape]. split; [reflexivity|]. exists page. reflexivity.
Qed.

Lemma bounded_trace_nil (after before : param) (fuel : nat) :
  bounded_trace after before fuel [].
Proof.
  unfold bounded_trace, clock_reads, token_calls. simpl.
  split; [lia|]. split; [lia|]. split; [lia|]. split; [lia|].
  split; [reflexivity|constructor].
Qed.

(** The loop, whatever the provider answers. *)
Lemma fetch_pages_trace (E : Env) (after before : param) (fuel : nat) :
  forall (page : Z) (all : list value) (s : state) (sess : Session) (data : TokenRecord),
    session s = Some sess ->
    strava sess = Some data ->
    exists evs : list event,
      history (snd (fetch_pages E fuel after before page all s)) = history s ++ evs
      /\ bounded_trace after before fuel evs.
Proof.
  induction fuel as [|fuel IH]; intros page all s sess data Hs Hd.
  { exists []. simpl. rewrite app_nil_r. split; [reflexivity|apply bounded_trace_nil]. }
  rewrite ActivityFetcher.fetch_pages_turn.
  destruct (stravaFetch_trace E s sess data "/athlete/activities"
              (page_params after before page) Hs Hd)
    as (o & s1 & sess1 & data1 & tail & Hrun & Hs1 & Hd1 & Hh & Hcase).
  rewrite Hrun.
  assert (Hstop : forall tail', tail' = tail ->
            (tail = [] \/ exists bearer res,
                tail = [EvFetch (ApiRequest "/athlete/activities"
                                   (search_of (page_params after before page)) bearer) res]) ->
            exists evs : list event,
              history s1 = history s ++ evs /\ bounded_trace after before (S fuel) evs).
  { intros tail' _ Ht.
    exists (((EvNow (clock_ms E (history s)) :: refresh_tail E s data) ++ tail) ++ []).
    split; [rewrite app_nil_r; exact Hh|].
    apply (bounded_trace_step E s data after before page); [|apply bounded_trace_nil].
    destruct Ht as [->|Ht]; [left; auto|right; exact Ht]. }
  destruct Hcase as [[Htail (e & ->)] | (bearer & res & Htail)].
  { simpl snd. apply (Hstop tail eq_refl). left. exact Htail. }
  assert (Hcase : tail = [] \/ exists bearer res,
               tail = [EvFetch (ApiRequest "/athlete/activities"
                                  (search_of (page_params after before page)) bearer) res])
    by (right; eauto).
  destruct o as [batch|e]; [|simpl snd; apply (Hstop tail eq_refl Hcase)].
  destruct (get batch "length") as [len|e]; [|simpl snd; apply (Hstop tail eq_refl Hcase)].
  destruct (last_page E len); [simpl snd; apply (Hstop tail eq_refl Hcase)|].
  destruct (page + 1 >? page_cap); [simpl snd; apply (Hstop tail eq_refl Hcase)|].
  destruct (IH (page + 1) (concat_batch all batch) s1 sess1 data1 Hs1 Hd1)
    as (evs2 & Hh2 & Hb2).
  exists (((EvNow (clock_ms E (history s)) :: refresh_tail E s data) ++ tail) ++ evs2).
  split; [rewrite Hh2, Hh, <- !app_assoc; reflexivity|].
  apply (bounded_trace_step E s data after before page); [right; eauto|exact Hb2].
Qed.

(** The events of a run of the handler. *)
Lemma api_activities_trace (E : Env) (after before : value) (s : state) :
  exists evs : list event,
    history (snd (api_activities E after before s)) = history s ++ evs
    /\ bounded_trace (bound_of after) (bound_of before) 20 evs.
Proof.
  unfold api_activities, api_activities_fuel, try_catch, activities_body.
  destruct (isAuthed s) eqn:Hauth; simpl negb; cbv iota.
  2:{ exists []. simpl. rewrite app_nil_r. split; [reflexivity|apply bounded_trace_nil]. }
  destruct (ActivityFetcher.isAuthed_record s Hauth) as (sess & data & Hs & Hd).
  destruct (fetch_pages_trace E (bound_of after) (bound_of before) 20 1 [] s sess data Hs Hd)
    as (evs & Hh & Hb).
  change (Z.to_nat page_cap) with 20%nat.
  unfold bind at 1.
  destruct (fetch_pages E 20 (bound_of after) (bound_of before) 1 [] s) as [[[all|]|e] s1];
    simpl in Hh.
  - unfold bind, lift, ret. rewrite ActivityNormalizer.cleaned_value. simpl.
    exists evs. auto.
  - unfold ret. simpl. exists evs. auto.
  - unfold bind, emit, ret. simpl. exists (evs ++ [EvLogError e]).
    split; [rewrite Hh, app_assoc; reflexivity|].
    destruct Hb as (Hn & Hc & Ht & Hnc & Hg & Hshape).
    unfold bounded_trace.
    rewrite api_requests_app, clock_reads_app, token_calls_app.
    change (api_requests [EvLogError e]) with (@nil (string * list (string * param) * value)).
    change (clock_reads [EvLogError e]) with 0%nat.
    change (token_calls [EvLogError e]) with 0%nat.
    rewrite app_nil_r, !Nat.add_0_r.
    split; [exact Hn|]. split; [exact Hc|]. split; [exact Ht|]. split; [exact Hnc|].
    split; [|exact Hshape].
    intros c. specialize (Hg c). revert Hg. clear.
    revert c. induction evs as [|ev evs IH]; intros c; [reflexivity|].
    destruct ev as [ms|hex|[form|path search bearer] res|label detail|e']; simpl; auto.
    intros H. apply andb_true_iff in H. destruct H as [-> H]. simpl. auto.
Qed.

Lemma search_forwards (after before : value) (p : Z) :
  param_of "per_page" (search_of (page_params (bound_of after) (bound_of before) p))
  = PNum 200
  /\ param_of "page" (search_of (page_params (bound_of after) (bound_of before) p)) = PNum p
  /\ forwarded "after" after (search_of (page_params (bound_of after) (bound_of before) p))
  /\ forwarded "before" before (search_of (page_params (bound_of after) (bound_of before) p)).
Proof.
  unfold forwarded, bound_of, page_params, search_of.
  destruct (truthy after), (truthy before); simpl;
    (split; [reflexivity|]); (split; [reflexivity|]); split;
    try reflexivity; intros H;
    repeat (destruct H as [H|H]; [discriminate H|]); exact H.
Qed.

(** X11. Whatever the provider answers, one request to [/api/activities]
    sends at most 20 requests to the activities API, reads the clock at most
    20 times and calls the token endpoint at most once per reading; and
    every request to the API comes after a freshness check of its own. *)
Theorem api_activities_call_bounds (E : Env) (after before : value) (s : state) :
  (List.length (api_requests (events_since s (snd (api_activities E after before s))))
   <= 20)%nat
  /\ (clock_reads (events_since s (snd (api_activities E after before s))) <= 20)%nat
  /\ (token_calls (events_since s (snd (api_activities E after before s)))
      <= clock_reads (events_since s (snd (api_activities E after before s))))%nat
  /\ (token_calls (events_since s (snd (api_activities E after before s))) <= 20)%nat
  /\ guarded false (events_since s (snd (api_activities E after before s))) = true.
Proof.
  destruct (api_activities_trace E after before s)
    as (evs & Hh & Hn & Hc & Ht & _ & Hg & _).
  rewrite (TokenLifecycle.events_since_app s _ evs Hh).
  split; [exact Hn|]. split; [exact Hc|]. split; [exact Ht|].
  split; [lia|apply Hg].
Qed.

(** X12. Every request that [/api/activities] sends goes to
    [/athlete/activities] with [per_page = 200] and a [page] number; the
    query values [after] and [before] are passed on as numbers when they are
    set, and left out of the request when they are missing or empty. *)
Theorem api_requests_forward_bounds (E : Env) (after before : value) (s : state) :
  Forall (fun rq =>
            fst (fst rq) = "/athlete/activities"
            /\ param_of "per_page" (snd (fst rq)) = PNum 200
            /\ (exists p : Z, param_of "page" (snd (fst rq)) = PNum p)
            /\ forwarded "after" after (snd (fst rq))
            /\ forwarded "before" before (snd (fst rq)))
         (api_requests (events_since s (snd (api_activities E after before s)))).
Proof.
  destruct (api_activities_trace E after before s)
    as (evs & Hh & _ & _ & _ & _ & _ & Hshape).
  rewrite (TokenLifecycle.events_since_app s _ evs Hh).
  eapply Forall_impl; [|exact Hshape].
  intros rq [Hpath (p & Hsearch)]. rewrite Hsearch.
  destruct (search_forwards after before p) as (H1 & H2 & H3 & H4).
  split; [exact Hpath|]. split; [exact H1|]. split; [eauto|]. split; assumption.
Qed.

End FetchBounds.

(* ================================================================== *)
(** * The filter of [renderRoutes] on what the server sends *)
(* ================================================================== *)

Module ClientFilter.

Import Server Client.

Local Open Scope string_scope.
Local Open Scope list_scope.

Lemma filter_cb_ext (f : value -> outcome bool) (g : value -> bool) (l : list value) :
  Forall (fun a => f a = Return (g a)) l ->
  filter_cb f l = Return (filter g l).
Proof.
  induction 1 as [|a rest Ha _ IH]; [reflexivity|].
  simpl. rewrite Ha, IH. simpl. destruct (g a); reflexivity.
Qed.

Lemma filter_all (g : value -> bool) (l : list value) :
  Forall (fun a => g a = true) l -> filter g l = l.
Proof.
  induction 1 as [|a rest Ha _ IH]; [reflexivity|].
  simpl. rewrite Ha, IH. reflexivity.
Qed.

Section WithLowerCase.

Variable toLowerCase : string -> string.

(** The callback on a record that is not [null], for a selection other
    than [all] and with a sport that is a string or missing. *)
Lemma sport_matches_value (selected : string) (a : value) :
  nullish a = false ->
  selected <> "" ->
  selected <> "all" ->
  sport_is_text a ->
  sport_matches toLowerCase selected a =
  Return (truthy (prop a "polyline")
          && String.eqb (lowered_sport toLowerCase a) (toLowerCase selected)).
Proof.
  intros Hn He Ha Ht. unfold sport_matches, get. rewrite Hn. simpl obind.
  destruct (truthy (prop a "polyline")); [|reflexivity].
  apply String.eqb_neq in He, Ha.
  simpl. rewrite He, Ha. simpl. unfold lowered_sport.
  unfold sport_is_text in Ht. unfold js_or.
  destruct (prop a "sport_type") as [| |b|q|t|l|f|n]; simpl; try contradiction;
    try reflexivity.
  destruct (String.eqb t ""); reflexivity.
Qed.

(** X13. With the selector on [all] (or empty) the filter of the page
    keeps, in order, every record that [/api/activities] has put in its
    answer, and does not throw: the server only sends records with a
    polyline, which is all this filter asks for. *)
Theorem server_routes_pass_client_filter
        (selected : string) (all routes : list value) :
  cleaned all = Return routes ->
  selected = "all" \/ selected = "" ->
  filtered toLowerCase selected routes = Return routes.
Proof.
  intros Hc Hsel. rewrite ActivityNormalizer.cleaned_value in Hc.
  inversion Hc as [Hr]. clear Hc.
  unfold filtered.
  rewrite (filter_cb_ext _ (fun _ => true)).
  - f_equal. apply filter_all. apply Forall_forall. reflexivity.
  - apply Forall_forall. intros b Hb.
    apply in_map_iff in Hb. destruct Hb as (a & <- & Ha).
    apply filter_In in Ha. destruct Ha as [_ Ha].
    unfold sport_matches, get. simpl nullish. cbv iota. simpl obind.
    change (prop (route_of a) "polyline") with (encoded_path a).
    rewrite Ha. simpl negb. cbv iota.
    destruct Hsel as [-> | ->]; reflexivity.
Qed.

(** X14. With a sport selected, the filter keeps, in order, exactly the
    records that have a polyline and whose [sport_type] equals the selection
    once both are lowered (a missing sport counts as the empty text), as
    long as every record is an object whose sport is a string or missing.
    A record with a polyline whose [sport_type] is set to something that is
    not a string makes the filter throw. *)
Theorem sport_selection_filters (selected : string) (records : list value) :
  selected <> "" ->
  selected <> "all" ->
  (Forall (fun a => nullish a = false /\ sport_is_text a) records ->
   filtered toLowerCase selected records =
   Return (filter (fun a => truthy (prop a "polyline")
                            && String.eqb (lowered_sport toLowerCase a)
                                          (toLowerCase selected))
                  records))
  /\ (forall (a : value) (rest : list value),
         nullish a = false ->
         truthy (prop a "polyline") = true ->
         truthy (prop a "sport_type") = true ->
         (forall t, prop a "sport_type" <> VStr t) ->
         filtered toLowerCase selected (a :: rest) =
         Throw (TypeError "toLowerCase is not a function")).
Proof.
  intros He Ha. split.
  - intros Hall. unfold filtered. apply filter_cb_ext.
    eapply Forall_impl; [|exact Hall].
    intros a [Hn Ht]. apply sport_matches_value; assumption.
  - intros a rest Hn Hp Hs Hnot.
    unfold filtered. simpl filter_cb. unfold sport_matches, get. rewrite Hn.
    simpl obind. rewrite Hp.
    apply String.eqb_neq in He, Ha.
    simpl. rewrite He, Ha. simpl. unfold js_or. rewrite Hs.
    destruct (prop a "sport_type") as [| |b|q|t|l|f|n]; try reflexivity.
    exfalso. apply (Hnot t). reflexivity.
Qed.

End WithLowerCase.

Lemma server_routes_pass_client_filter_witness :
  filtered lower_ascii "all" [route_of (activity 0); route_of (activity 1)] =
  Return [route_of (activity 0); route_of (activity 1)].
Proof.
  exact (server_routes_pass_client_filter lower_ascii "all"
           [activity 0; VObj [("id", VNum 7)]; activity 1; VNull]
           [route_of (activity 0); route_of (activity 1)]
           eq_refl (or_introl eq_refl)).
Defined.

Lemma sport_selection_filters_witness :
  filtered lower_ascii "ride"
           [route_of (activity 0);
            VObj [("sport_type", VStr "Run"); ("polyline", VStr "_p~iF~ps|U")];
            VObj [("polyline", VStr "_p~iF~ps|U")]] =
  Return [route_of (activity 0)].
Proof.
  refine (proj1 (sport_selection_filters lower_ascii "ride"
                   [route_of (activity 0);
                    VObj [("sport_type", VStr "Run"); ("polyline", VStr "_p~iF~ps|U")];
                    VObj [("polyline", VStr "_p~iF~ps|U")]] _ _) _).
  - intros H. discriminate H.
  - intros H. discriminate H.
  - repeat (apply Forall_cons; [split; [reflexivity|exact I]|]). apply Forall_nil.
Defined.

End ClientFilter.

(* ================================================================== *)
(** * The decoder on arbitrary strings *)
(* ================================================================== *)

Module DecoderEdges.

Import Polyline.

Local Open Scope Z_scope.
Local Open Scope list_scope.

Lemma code_units_length (str : string) :
  List.length (code_units str) = String.length str.
Proof.
  induction str as [|c rest IH]; simpl; congruence.
Qed.

Lemma code_units_nil (str : string) : code_units str = [] <-> str = EmptyString.
Proof.
  destruct str; simpl; split; intros H; try reflexivity; discriminate H.
Qed.

Lemma code_units_app (a b : string) :
  code_units (String.append a b) = code_units a ++ code_units b.
Proof.
  induction a as [|c rest IH]; simpl; [reflexivity|].
  rewrite IH. reflexivity.
Qed.

(** The loop, whatever the string: the coordinates pushed are the
    accumulators of a track of integer pairs that depends neither on the
    factor nor on what [coordinates] held; a non-empty string gives at least
    one pair, and every turn but the last takes at least two characters. *)
Lemma decode_loop_track (fuel : nat) :
  forall (str : list Z) (lat lng : Z),
    (List.length str <= fuel)%nat ->
    exists track : list (Z * Z),
      (forall (factor : Q) (coordinates : list Coordinate),
          decode_loop fuel str lat lng factor coordinates =
          Some (coordinates ++ map (scale factor) track))
      /\ (str = [] -> track = [])
      /\ (str <> [] -> track <> [])
      /\ (2 * List.length track <= List.length str + 1)%nat.
Proof.
  induction fuel as [|fuel IH]; intros str lat lng Hlen.
  { destruct str; [|simpl in Hlen; lia].
    exists []. simpl. split; [intros; rewrite app_nil_r; reflexivity|].
    split; [reflexivity|]. split; [intros H; contradiction|lia]. }
  destruct str as [|c rest].
  { exists []. simpl. split; [intros; rewrite app_nil_r; reflexivity|].
    split; [reflexivity|]. split; [intros H; contradiction|lia]. }
  pose proof (PolylineDecoder.chunk_length (c :: rest) 0 0) as H1.
  destruct (chunk (c :: rest) 0 0) as [r1 str1] eqn:Hc1.
  pose proof (PolylineDecoder.chunk_length str1 0 0) as H2.
  destruct (chunk str1 0 0) as [r2 str2] eqn:Hc2.
  simpl in H1, H2, Hlen.
  destruct (IH str2 (lat + change_of r1) (lng + change_of r2) ltac:(lia))
    as (track & Hrun & Hnil & Hcons & Hcount).
  exists ((lat + change_of r1, lng + change_of r2) :: track).
  split; [|split; [|split]].
  - intros factor coordinates.
    cbv beta iota delta [decode_loop]. fold decode_loop.
    rewrite Hc1, Hc2. cbv zeta. rewrite Hrun, <- app_assoc. reflexivity.
  - intros H. discriminate H.
  - intros _ H. discriminate H.
  - simpl List.length.
    destruct str1 as [|c1 rest1].
    + simpl in Hc2. inversion Hc2; subst str2.
      rewrite (Hnil eq_refl). simpl. lia.
    + simpl in H1, H2. lia.
Qed.

(** More fuel than the length of the string changes nothing. *)
Lemma decode_loop_fuel (fuel : nat) :
  forall (fuel' : nat) (str : list Z) (lat lng : Z) (factor : Q)
         (coordinates : list Coordinate),
    (List.length str <= fuel)%nat ->
    (List.length str <= fuel')%nat ->
    decode_loop fuel str lat lng factor coordinates =
    decode_loop fuel' str lat lng factor coordinates.
Proof.
  induction fuel as [|fuel IH]; intros fuel' str lat lng factor coordinates Hlen Hlen'.
  { destruct str; [|simpl in Hlen; lia]. destruct fuel'; reflexivity. }
  destruct str as [|c rest]; [destruct fuel'; reflexivity|].
  destruct fuel' as [|fuel']; [simpl in Hlen'; lia|].
  cbv beta iota delta [decode_loop]. fold decode_loop.
  pose proof (PolylineDecoder.chunk_length (c :: rest) 0 0) as H1.
  destruct (chunk (c :: rest) 0 0) as [r1 str1].
  pose proof (PolylineDecoder.chunk_length str1 0 0) as H2.
  destruct (chunk str1 0 0) as [r2 str2].
  simpl in H1, H2, Hlen, Hlen'. apply IH; lia.
Qed.

(** Inside a well-formed encoding a chunk ends before the encoding does:
    what follows the encoding is left untouched. *)
Lemma chunk_app (str : list Z) :
  forall (seen : nat) (second : bool) (shift result : Z) (tail : list Z),
    well_formed_from str seen second = true ->
    str <> [] ->
    chunk (str ++ tail) shift result =
    (fst (chunk str shift result), snd (chunk str shift result) ++ tail).
Proof.
  induction str as [|c rest IH]; intros seen second shift result tail Hwf Hne;
    [contradiction|].
  simpl in Hwf. rewrite <- app_comm_cons.
  cbv beta iota zeta delta [chunk]. fold chunk.
  destruct ((95 <=? c) && (c <=? 126)) eqn:Hcont.
  - apply andb_true_iff in Hcont. destruct Hcont as [Hlo Hhi].
    apply Z.leb_le in Hlo, Hhi.
    apply andb_true_iff in Hwf. destruct Hwf as [_ Hwf].
    replace (c - 63 >=? 32) with true by (symmetry; apply Z.geb_le; lia).
    assert (Hrest : rest <> []).
    { intros ->. simpl in Hwf. discriminate Hwf. }
    apply (IH (S seen) second); assumption.
  - destruct ((63 <=? c) && (c <=? 94)) eqn:Hterm; [|discriminate Hwf].
    apply andb_true_iff in Hterm. destruct Hterm as [Hlo Hhi].
    apply Z.leb_le in Hlo, Hhi.
    replace (c - 63 >=? 32) with false
      by (symmetry; rewrite Z.geb_leb; apply Z.leb_gt; lia).
    reflexivity.
Qed.

(** The loop on a well-formed encoding followed by anything: the
    coordinates of the encoding come first. *)
Lemma decode_loop_prefix (fuel : nat) :
  forall (str tail : list Z) (lat lng : Z) (factor : Q) (coordinates : list Coordinate),
    well_formed_from str 0 false = true ->
    (List.length (str ++ tail) <= fuel)%nat ->
    exists points more : list Coordinate,
      decode_loop fuel str lat lng factor coordinates = Some (coordinates ++ points)
      /\ decode_loop fuel (str ++ tail) lat lng factor coordinates =
         Some (coordinates ++ points ++ more).
Proof.
  induction fuel as [|fuel IH]; intros str tail lat lng factor coordinates Hwf Hlen.
  { destruct str; [|simpl in Hlen; lia].
    destruct tail; [|simpl in Hlen; lia].
    exists [], []. simpl. rewrite app_nil_r. auto. }
  destruct str as [|c rest].
  { destruct (decode_loop_track (S fuel) tail lat lng Hlen) as (track & Hrun & _).
    exists [], (map (scale factor) track). rewrite app_nil_l, Hrun.
    simpl. rewrite app_nil_r. auto. }
  assert (Hne : c :: rest <> []) by discriminate.
  destruct (PolylineDecoder.chunk_refines (c :: rest) 0 false 0 0 Hwf Hne
              ltac:(lia) ltac:(lia) ltac:(simpl; lia))
    as (r1 & str1 & Hc1 & _ & _ & Hwf1 & Hlen1 & _).
  assert (Hne1 : str1 <> []).
  { intros ->. simpl in Hwf1. discriminate Hwf1. }
  destruct (PolylineDecoder.chunk_refines str1 0 true 0 0 Hwf1 Hne1
              ltac:(lia) ltac:(lia) ltac:(simpl; lia))
    as (r2 & str2 & Hc2 & _ & _ & Hwf2 & Hlen2 & _).
  simpl negb in Hwf2.
  pose proof (chunk_app (c :: rest) 0 false 0 0 tail Hwf Hne) as Ha1.
  pose proof (chunk_app str1 0 true 0 0 tail Hwf1 Hne1) as Ha2.
  rewrite Hc1 in Ha1. rewrite Hc2 in Ha2. simpl fst in Ha1, Ha2. simpl snd in Ha1, Ha2.
  rewrite <- app_comm_cons in Ha1 |- *.
  cbv beta iota delta [decode_loop]. fold decode_loop.
  rewrite Hc1, Ha1. cbv iota beta. rewrite Hc2, Ha2. cbv zeta iota beta.
  rewrite length_app in Hlen. simpl in Hlen, Hlen1.
  destruct (IH str2 tail (lat + change_of r1) (lng + change_of r2) factor
               (coordinates ++
                [(inject_Z (lat + change_of r1) / factor,
                  inject_Z (lng + change_of r2) / factor)%Q])
               Hwf2 ltac:(rewrite length_app; lia))
    as (points & more & Hrun & Hrun').
  rewrite Hrun, Hrun'.
  eexists (_ :: points), more.
  split; rewrite <- app_assoc; reflexivity.
Qed.

(** X15. Whatever the string, well formed or not, [decodePolyline] returns
    a list that is empty exactly when the string is empty and holds at most
    (length + 1) / 2 coordinates: the list is never empty for a polyline
    that passed the filter of the page. *)
Theorem decode_count_bounds (str : string) (precision : option Z) :
  exists coords : list Coordinate,
    decodePolyline str precision = Some coords
    /\ (coords = [] <-> str = EmptyString)
    /\ (2 * List.length coords <= String.length str + 1)%nat.
Proof.
  unfold decodePolyline.
  destruct (decode_loop_track (List.length (code_units str)) (code_units str) 0 0
              (Nat.le_refl _)) as (track & Hrun & Hnil & Hcons & Hcount).
  exists (map (scale (factor_of precision)) track).
  rewrite Hrun. split; [reflexivity|].
  rewrite length_map, <- code_units_length. split; [|exact Hcount].
  rewrite <- code_units_nil. split.
  - intros Hm. destruct (code_units str) as [|c rest]; [reflexivity|].
    destruct track; [|discriminate Hm]. exfalso. apply Hcons; [discriminate|reflexivity].
  - intros Hs. rewrite (Hnil Hs). reflexivity.
Qed.


(** X17. What follows a well-formed encoding does not change its
    coordinates: the decoding of the encoding followed by any text starts
    with the decoding of the encoding alone. *)
Theorem well_formed_prefix_is_stable (str tail : string) (precision : option Z) :
  well_formed str = true ->
  exists coords more : list Coordinate,
    decodePolyline str precision = Some coords
    /\ decodePolyline (String.append str tail) precision = Some (coords ++ more).
Proof.
  intros Hwf. unfold decodePolyline. rewrite code_units_app.
  destruct (decode_loop_prefix (List.length (code_units str ++ code_units tail))
              (code_units str) (code_units tail) 0 0 (factor_of precision) []
              Hwf (Nat.le_refl _)) as (points & more & Hrun & Hrun').
  exists points, more. split; [|exact Hrun'].
  rewrite <- (app_nil_l points), <- Hrun.
  apply decode_loop_fuel; [lia|rewrite length_app; lia].
Qed.

Lemma well_formed_prefix_is_stable_witness :
  exists coords more : list Coordinate,
    decodePolyline "_p~iF~ps|U" None = Some coords
    /\ decodePolyline "_p~iF~ps|U_ulLn" None = Some (coords ++ more).
Proof.
  exact (well_formed_prefix_is_stable "_p~iF~ps|U" "_ulLn" None eq_refl).
Defined.

End DecoderEdges.

(* ================================================================== *)
(** * The grid across routes *)
(* ================================================================== *)

Module GridEdges.

Import Polyline Heatmap.

Local Open Scope Z_scope.
Local Open Scope list_scope.

(** ** Weights are counts of deposited points *)

Lemma aggregate_weight (key : Key) (routes : list (list Coordinate)) :
  weight_at key (aggregate routes) = hits key (all_deposited routes).
Proof.
  unfold aggregate. rewrite RouteAggregator.aggregate_fold.
  rewrite RouteAggregator.fold_push_weight. reflexivity.
Qed.

Lemma aggregate_ok (routes : list (list Coordinate)) : grid_ok (aggregate routes).
Proof.
  unfold aggregate. rewrite RouteAggregator.aggregate_fold.
  apply RouteAggregator.fold_push_ok.
  split; [apply NoDup_nil|]. split; apply Forall_nil.
Qed.

Lemma hits_app (key : Key) (a b : list Coordinate) :
  hits key (a ++ b) = hits key a + hits key b.
Proof.
  unfold hits. rewrite filter_app, length_app. apply Nat2Z.inj_add.
Qed.

Lemma hits_permutation (key : Key) (a b : list Coordinate) :
  Permutation a b -> hits key a = hits key b.
Proof.
  unfold hits. induction 1 as [|x a b _ IH|x y a|a b c _ IH1 _ IH2]; simpl.
  - reflexivity.
  - destruct (key_eqb (key_of (fst x) (snd x)) key); simpl; lia.
  - destruct (key_eqb (key_of (fst x) (snd x)) key),
             (key_eqb (key_of (fst y) (snd y)) key); reflexivity.
  - lia.
Qed.

(** ** Two grids with the same weights hold the same cells *)

Lemma in_grid_get (k : Key) (v : GridCell) (freq : Grid) :
  NoDup (map fst freq) -> In (k, v) freq -> grid_get k freq = Some v.
Proof.
  induction freq as [|[k' v'] rest IH]; intros Hnd Hin; [contradiction|].
  simpl in Hnd. inversion Hnd as [|? ? Hnot Hrest]; subst.
  simpl. destruct Hin as [Heq | Hin].
  - inversion Heq; subst. rewrite RouteAggregator.key_eqb_refl. reflexivity.
  - destruct (key_eqb k k') eqn:Hk.
    + apply RouteAggregator.key_eqb_eq in Hk. subst k'.
      exfalso. apply Hnot. apply in_map_iff. exists (k, v). auto.
    + apply IH; assumption.
Qed.

Lemma cell_determined (k : Key) (v v' : GridCell) :
  cell_at_key (k, v) -> cell_at_key (k, v') -> w v = w v' -> v = v'.
Proof.
  unfold cell_at_key. simpl. intros [H1 H2] [H1' H2'] Hw.
  destruct v, v'. simpl in *. congruence.
Qed.

Lemma grid_entries_transfer (g g' : Grid) (kv : Key * GridCell) :
  grid_ok g -> grid_ok g' ->
  (forall key, weight_at key g = weight_at key g') ->
  In kv g -> In kv g'.
Proof.
  intros (Hnd & Hw & Hc) (Hnd' & Hw' & Hc') Hsame Hin.
  destruct kv as [k v].
  pose proof (in_grid_get k v g Hnd Hin) as Hget.
  pose proof (proj1 (Forall_forall _ _) Hw _ Hin) as Hv. simpl in Hv.
  pose proof (proj1 (Forall_forall _ _) Hc _ Hin) as Hcell.
  specialize (Hsame k). unfold weight_at in Hsame. rewrite Hget in Hsame.
  destruct (grid_get k g') as [v'|] eqn:Hget'; [|lia].
  apply RouteAggregator.grid_get_in in Hget'.
  pose proof (proj1 (Forall_forall _ _) Hc' _ Hget') as Hcell'.
  rewrite (cell_determined k v v' Hcell Hcell' Hsame). exact Hget'.
Qed.

Lemma grid_entries_nodup (g : Grid) : NoDup (map fst g) -> NoDup g.
Proof.
  apply NoDup_map_inv.
Qed.

Lemma grids_agree (g g' : Grid) :
  grid_ok g -> grid_ok g' ->
  (forall key, weight_at key g = weight_at key g') ->
  Permutation g g'.
Proof.
  intros Hg Hg' Hsame.
  apply NoDup_Permutation.
  - apply grid_entries_nodup. apply Hg.
  - apply grid_entries_nodup. apply Hg'.
  - intros kv. split.
    + apply grid_entries_transfer; assumption.
    + apply grid_entries_transfer; [assumption|assumption|].
      intros key. symmetry. apply Hsame.
Qed.

(** X18. The heat data does not depend on the order of the activities:
    the same routes in another order give the same cells with the same
    weights, up to the order of the cells. *)
Theorem heat_independent_of_route_order (routes routes' : list (list Coordinate)) :
  Permutation routes routes' ->
  Permutation (heat_data (aggregate routes)) (heat_data (aggregate routes')).
Proof.
  intros Hperm. unfold heat_data. apply Permutation_map.
  apply grids_agree; try apply aggregate_ok.
  intros key. rewrite !aggregate_weight.
  apply hits_permutation. unfold all_deposited.
  apply Permutation_flat_map. exact Hperm.
Qed.

Lemma heat_independent_of_route_order_witness :
  Permutation
    (heat_data (aggregate [[(0, 0); (0.001, 0)]%Q; [(0.0003, 0)]%Q]))
    (heat_data (aggregate [[(0.0003, 0)]%Q; [(0, 0); (0.001, 0)]%Q])).
Proof.
  apply (heat_independent_of_route_order
           [[(0, 0); (0.001, 0)]%Q; [(0.0003, 0)]%Q]
           [[(0.0003, 0)]%Q; [(0, 0); (0.001, 0)]%Q]).
  apply perm_swap.
Defined.

(** X19. Routes add up cell by cell: the weight of a cell for two lists of
    routes together is the sum of its weights for each list alone, and so
    is the total weight. *)
Theorem weights_add_over_routes (routes routes' : list (list Coordinate)) :
  (forall key : Key,
      weight_at key (aggregate (routes ++ routes')) =
      weight_at key (aggregate routes) + weight_at key (aggregate routes'))
  /\ total_weight (aggregate (routes ++ routes')) =
     total_weight (aggregate routes) + total_weight (aggregate routes').
Proof.
  split.
  - intros key. rewrite !aggregate_weight.
    unfold all_deposited. rewrite flat_map_app. apply hits_app.
  - unfold aggregate. rewrite !RouteAggregator.aggregate_fold.
    rewrite !RouteAggregator.fold_push_total.
    unfold all_deposited. rewrite flat_map_app, length_app. simpl. lia.
Qed.

(** ** When the grid is empty *)

Lemma deposited_nil (coords : list Coordinate) : deposited coords = [] -> coords = [].
Proof.
  destruct coords as [|c rest]; [reflexivity|]. simpl. intros H. discriminate H.
Qed.

Lemma all_deposited_nil (routes : list (list Coordinate)) :
  all_deposited routes = [] <-> Forall (fun r => r = []) routes.
Proof.
  unfold all_deposited. induction routes as [|r rest IH]; simpl.
  - split; [intros _; apply Forall_nil|reflexivity].
  - split.
    + intros H. apply app_eq_nil in H. destruct H as [Hr Hrest].
      apply Forall_cons; [apply deposited_nil; exact Hr|apply IH; exact Hrest].
    + intros H. inversion H as [|? ? Hr Hrest]; subst.
      simpl. apply IH. exact Hrest.
Qed.

Lemma aggregate_nil (routes : list (list Coordinate)) :
  aggregate routes = [] <-> Forall (fun r => r = []) routes.
Proof.
  rewrite <- all_deposited_nil. split.
  - intros H.
    pose proof (RouteAggregator.fold_push_total (all_deposited routes) []) as Ht.
    rewrite <- RouteAggregator.aggregate_fold in Ht. fold (aggregate routes) in Ht.
    rewrite H in Ht. simpl in Ht.
    destruct (all_deposited routes); [reflexivity|simpl in Ht; lia].
  - intros H. unfold aggregate. rewrite RouteAggregator.aggregate_fold, H. reflexivity.
Qed.

Lemma decode_all_shape (polylines : list string) :
  exists routes : list (list Coordinate),
    decode_all polylines = Some routes
    /\ (Forall (fun r => r = []) routes <->
        Forall (fun p => p = EmptyString) polylines).
Proof.
  induction polylines as [|p rest (routes & Hrun & Hiff)].
  - exists []. split; [reflexivity|]. split; intros _; apply Forall_nil.
  - simpl. unfold decodePolyline.
    destruct (DecoderEdges.decode_loop_track (List.length (code_units p)) (code_units p)
                0 0 (Nat.le_refl _)) as (track & Hdec & Hnil & Hcons & _).
    rewrite Hdec, Hrun. simpl app.
    eexists. split; [reflexivity|].
    split; intros H; inversion H as [|? ? Hhead Htail]; subst;
      (apply Forall_cons; [|apply Hiff; exact Htail]).
    + apply DecoderEdges.code_units_nil.
      destruct (code_units p) as [|c cs]; [reflexivity|].
      destruct track; [|discriminate Hhead].
      exfalso. apply Hcons; [discriminate|reflexivity].
    + rewrite (Hnil eq_refl). reflexivity.
Qed.

(** X20. The heat branch always produces its data, and the data is empty,
    so that no heat layer is added, exactly when every polyline is the
    empty string: one activity that passed the filter of the page is enough
    for a layer. *)
Theorem heat_data_empty_iff (polylines : list string) :
  exists data : list (Q * Q * Z),
    render_heat polylines = Some data
    /\ (data = [] <-> Forall (fun p => p = EmptyString) polylines).
Proof.
  unfold render_heat.
  destruct (decode_all_shape polylines) as (routes & Hrun & Hiff).
  rewrite Hrun. simpl. eexists. split; [reflexivity|].
  rewrite <- Hiff, <- aggregate_nil. unfold heat_data.
  destruct (aggregate routes); simpl; split; intros H;
    try reflexivity; discriminate H.
Qed.

(** ** Cells and the points they stand for *)

Local Open Scope Q_scope.

Lemma round_close (x : Q) :
  Qabs (inject_Z (js_round (x * 10000)) / 10000 - x) <= 1 # 20000.
Proof.
  unfold js_round.
  pose proof (Qfloor_le (x * 10000 + (1 # 2))) as Hlo.
  pose proof (Qlt_floor (x * 10000 + (1 # 2))) as Hhi.
  rewrite inject_Z_plus in Hhi.
  set (r := inject_Z (Qfloor (x * 10000 + (1 # 2)))) in *.
  change (inject_Z 1) with 1 in Hhi.
  clearbody r. unfold Qdiv. change (/ 10000) with (1 # 10000).
  apply Qabs_Qle_condition. split; lra.
Qed.

Lemma in_length_pos (p : Coordinate) (l : list Coordinate) :
  In p l -> (1 <= Z.of_nat (List.length l))%Z.
Proof.
  destruct l; [contradiction|]. intros _. simpl List.length. lia.
Qed.

Lemma real_point_deposited (coords : list Coordinate) (p : Coordinate) :
  In p coords -> In p (deposited coords).
Proof.
  induction coords as [|c rest IH]; intros Hin; [contradiction|].
  cbv beta iota delta [deposited]. fold deposited.
  destruct Hin as [-> | Hin]; [left; reflexivity|].
  right. destruct rest as [|n rest']; [contradiction|].
  apply in_or_app. right. apply IH. exact Hin.
Qed.


(** ** Spacing of the interpolated points *)

Lemma interpolate_gap (c n : Coordinate) (steps s : Z) :
  (0 <= steps)%Z ->
  fst (interpolate c n steps (s + 1)) - fst (interpolate c n steps s)
  == (fst n - fst c) / inject_Z (steps + 1)
  /\ snd (interpolate c n steps (s + 1)) - snd (interpolate c n steps s)
     == (snd n - snd c) / inject_Z (steps + 1).
Proof.
  intros Hs. unfold interpolate. simpl fst. simpl snd.
  assert (Hk : ~ inject_Z (steps + 1) == 0).
  { intros H. apply (Qlt_irrefl 0). rewrite <- H at 2.
    change 0 with (inject_Z 0). rewrite <- Zlt_Qlt. lia. }
  rewrite !inject_Z_plus. rewrite inject_Z_plus in Hk.
  change (inject_Z 1) with 1 in *.
  split; field; exact Hk.
Qed.


End GridEdges.

(* ================================================================== *)
(** * The polyline branch of [renderRoutes] *)
(* ================================================================== *)

Module LineBranch.

Import Polyline Client.

Local Open Scope list_scope.

(** X23. The polyline branch returns for every list of polylines; the
    points it fits the map to are the points of the lines it has drawn, in
    order, and no line is empty.  When no polyline is the empty string, as
    after the filter of the page, no activity is skipped: there is one line
    per activity, its decoded polyline, and the map is fitted as soon as
    there is one activity. *)
Theorem line_branch_draws_every_route (polylines : list string) :
  exists (lines : list (list Coordinate)) (bounds : list Coordinate),
    draw_lines polylines = Some (lines, bounds)
    /\ bounds = List.concat lines
    /\ Forall (fun line => line <> []) lines
    /\ (Forall (fun p => p <> EmptyString) polylines ->
        Forall2 (fun p line => decodePolyline p None = Some line) polylines lines
        /\ fits_bounds bounds = negb (Nat.eqb (List.length polylines) 0)).
Proof.
  induction polylines as [|p rest (lines & bounds & Hrun & Hb & Hne & Hall)].
  - exists [], []. simpl. split; [reflexivity|]. split; [reflexivity|].
    split; [apply Forall_nil|]. intros _. split; [apply Forall2_nil|reflexivity].
  - cbn [draw_lines]. unfold decodePolyline at 1.
    destruct (DecoderEdges.decode_loop_track (List.length (code_units p)) (code_units p)
                0 0 (Nat.le_refl _)) as (track & Hdec & Hnil & Hcons & _).
    rewrite Hdec, Hrun. cbn [app].
    destruct (map (scale (factor_of None)) track) as [|c coords] eqn:Hm.
    + (* an empty decoding: the polyline is the empty string *)
      cbn [List.length Nat.eqb].
      exists lines, bounds. split; [reflexivity|]. split; [exact Hb|].
      split; [exact Hne|]. intros Hp. exfalso.
      inversion Hp as [|? ? Hhead _]; subst. apply Hhead.
      apply DecoderEdges.code_units_nil.
      destruct (code_units p) as [|u us]; [reflexivity|].
      destruct track; [|discriminate Hm].
      exfalso. apply Hcons; [discriminate|reflexivity].
    + cbn [List.length Nat.eqb].
      exists ((c :: coords) :: lines), ((c :: coords) ++ bounds).
      split; [reflexivity|]. split; [rewrite Hb; reflexivity|].
      split; [apply Forall_cons; [discriminate|exact Hne]|].
      intros Hp. inversion Hp as [|? ? _ Htail]; subst.
      split; [|reflexivity].
      apply Forall2_cons; [|apply (Hall Htail)].
      unfold decodePolyline. rewrite Hdec, Hm. reflexivity.
Qed.

End LineBranch.
